(** * SunC: sun vectors, panel normal, energy integration and tilt search

    A shallow embedding of the numerical core of [SunC.py]:
    [calculate_solar_vectors], [get_panel_normal], [calculate_energy],
    [find_best_fixed_position] and the relative-efficiency computation of
    [create_visualizations].

    Numbers.  The program computes with numpy [float64] values.  They are
    embedded as real numbers [R]: [np.sin], [np.cos] and [np.radians] are the
    functions [sin], [cos] and multiplication by [PI / 180] of the Standard
    Library, and [+], [*] are the exact operations.  Rounding is therefore not
    part of the model; the one place where the non-finite values of
    [float64] matter (a division by zero) is modelled with an explicit type
    [np_float].  The integer tilt angles produced by [np.arange] are [Z].

    Data frames.  A pandas frame is the list of its rows in index order; a
    column is the list obtained by mapping a field over the rows. *)

From Stdlib Require Import String Reals Lra Lia ZArith List Sorted.
From Stdlib Require Import DecimalString Permutation.
Import ListNotations.

Open Scope R_scope.

(** ** Outcomes of Python calls *)

(** A call either returns a value or raises an exception, of which the model
    keeps the message. *)
Inductive outcome (A : Type) : Type :=
| Returned (a : A)
| Raised (e : string).

Arguments Returned {A} a.
Arguments Raised {A} e.

(** The outcome of a call together with the lines it printed. *)
Record run (A : Type) : Type := mkRun {
  result : outcome A;
  stdout : list string
}.

Arguments mkRun {A} result stdout.
Arguments result {A} r.
Arguments stdout {A} r.

(** ** Numeric helpers (numpy) *)

(** [a > b] on floats, as a boolean mask entry. *)
Definition Rgtb (a b : R) : bool := if Rlt_dec b a then true else false.

(** [np.radians]. *)
Definition radians (deg : R) : R := deg * (PI / 180).

(** [np.clip(v, lo, hi)] on one entry: [minimum(maximum(v, lo), hi)]. *)
Definition clip (v lo hi : R) : R := Rmin (Rmax v lo) hi.

(** Element-wise binary operation on two columns of the same index. *)
Fixpoint map2 {A B C : Type} (f : A -> B -> C) (l : list A) (l' : list B)
  : list C :=
  match l, l' with
  | a :: t, b :: t' => f a b :: map2 f t t'
  | _, _ => []
  end.

(** [Series.sum()]: the sum of a column, [0] when it is empty. *)
Definition series_sum (l : list R) : R := fold_right Rplus 0 l.

(** Vectors and matrices of [R^3], as numpy arrays of shape (3,) and (3,3). *)
Definition vec3 : Type := (R * R * R)%type.
Definition mat3 : Type := (vec3 * vec3 * vec3)%type.

(** The inner product of two arrays of shape (3,). *)
Definition dot3 (u v : vec3) : R :=
  let '(u0, u1, u2) := u in
  let '(v0, v1, v2) := v in
  u0 * v0 + u1 * v1 + u2 * v2.

(** [M @ v]: every row of [M] against [v]. *)
Definition matvec (M : mat3) (v : vec3) : vec3 :=
  let '(r0, r1, r2) := M in
  (dot3 r0 v, dot3 r1 v, dot3 r2 v).

(** Euclidean magnitude. *)
Definition norm3 (v : vec3) : R :=
  let '(v0, v1, v2) := v in sqrt (v0 * v0 + v1 * v1 + v2 * v2).

(** [np.arange(start, stop, step)] on integers, for a positive [step]:
    [start, start + step, ...] below [stop]. *)
Definition arange (start stop step : Z) : list Z :=
  map (fun i => (start + step * Z.of_nat i)%Z)
      (seq 0 (Z.to_nat ((stop - start + step - 1) / step))).

(** ** Data model *)

(** One row of the solar-position provider: [solpos] and [clearsky] are both
    indexed by [times_local], and a row pairs their entries at one index
    label. *)
Record PositionSample : Type := mkSample {
  timestamp : Z;
  apparent_zenith : R;
  azimuth : R;
  dni : R
}.

(** One row of [vectors_df]: columns [x], [y], [z], [dni] and the index. *)
Record SunVector : Type := mkSunVector {
  sv_time : Z;
  sv_x : R;
  sv_y : R;
  sv_z : R;
  sv_dni : R
}.

Definition xyz (v : SunVector) : vec3 := (sv_x v, sv_y v, sv_z v).

(** One row of [energy_df]: column [enerji_wh] and the index. *)
Record EnergySample : Type := mkEnergy {
  en_time : Z;
  enerji_wh : R
}.

(** ** calculate_solar_vectors *)

(** The [pd.DataFrame] constructor of [vectors_df]: four columns over one
    index. *)
Fixpoint vectors_frame (index : list Z) (x y z d : list R) : list SunVector :=
  match index, x, y, z, d with
  | t :: index', x0 :: x', y0 :: y', z0 :: z', d0 :: d' =>
      mkSunVector t x0 y0 z0 d0 :: vectors_frame index' x' y' z' d'
  | _, _, _, _, _ => []
  end.

(** The body of the [try] block once the provider has answered. *)
Definition solar_vectors_of (solpos : list PositionSample) : list SunVector :=
  let daylight_solpos := filter (fun s => Rgtb (dni s) 0) solpos in
  let zenith_rad := map (fun s => radians (apparent_zenith s)) daylight_solpos in
  let azimuth_rad := map (fun s => radians (azimuth s)) daylight_solpos in
  let x := map2 (fun zr ar => sin zr * sin ar) zenith_rad azimuth_rad in
  let y := map2 (fun zr ar => sin zr * cos ar) zenith_rad azimuth_rad in
  let z := map cos zenith_rad in
  vectors_frame (map timestamp daylight_solpos) x y z (map dni daylight_solpos).

Definition hata_mesaji : string :=
  "Güneş vektörleri hesaplanırken hata oluştu: ".

(** [calculate_solar_vectors(loc_data, start_year)].  The calls to pandas and
    pvlib that build the year of samples from [loc_data] and [start_year] are
    the external provider; their outcome is the argument [provider].  When
    the provider raises, the handler prints the message and raises the same
    exception again. *)
Definition calculate_solar_vectors (provider : outcome (list PositionSample))
  : run (list SunVector) :=
  match provider with
  | Returned solpos => mkRun (Returned (solar_vectors_of solpos)) []
  | Raised e => mkRun (Raised e) [(hata_mesaji ++ e)%string]
  end.

(** The sun vector of one sample, in the words of the specification:
    [(sin Z * sin A, sin Z * cos A, cos Z)] in (east, north, up) order, with
    [Z] and [A] the zenith and azimuth in radians. *)
Definition sun_vector (s : PositionSample) : SunVector :=
  let Z := radians (apparent_zenith s) in
  let A := radians (azimuth s) in
  mkSunVector (timestamp s) (sin Z * sin A) (sin Z * cos A) (cos Z) (dni s).

(** A sample is daylight when its DNI strictly exceeds 0. *)
Definition daylight (s : PositionSample) : bool := Rgtb (dni s) 0.

(** ** get_panel_normal *)

(** The matrix [Ry] built from [ew_rad]. *)
Definition Ry (ew_rad : R) : mat3 :=
  ((cos ew_rad, 0, sin ew_rad),
   (0, 1, 0),
   (- sin ew_rad, 0, cos ew_rad)).

(** The matrix [Rx] built from [ns_rad]. *)
Definition Rx (ns_rad : R) : mat3 :=
  ((1, 0, 0),
   (0, cos ns_rad, - sin ns_rad),
   (0, sin ns_rad, cos ns_rad)).

(** [get_panel_normal(ew_tilt_deg, ns_tilt_deg)]. *)
Definition get_panel_normal (ew_tilt_deg ns_tilt_deg : R) : vec3 :=
  let ew_rad := radians ew_tilt_deg in
  let ns_rad := radians ns_tilt_deg in
  let normal := (0, 0, 1) in
  let normal := matvec (Ry ew_rad) normal in
  let normal := matvec (Rx ns_rad) normal in
  normal.

(** The two rotations in the words of the specification. *)
Definition rotate_y (theta : R) (v : vec3) : vec3 :=
  let '(x, y, z) := v in
  (x * cos theta + z * sin theta, y, - x * sin theta + z * cos theta).

Definition rotate_x (theta : R) (v : vec3) : vec3 :=
  let '(x, y, z) := v in
  (x, y * cos theta - z * sin theta, y * sin theta + z * cos theta).

(** ** calculate_energy *)

(** [cos_theta] is either the scalar [1.0] or an array with one entry per
    row. *)
Inductive ndarray : Type :=
| Scalar (c : R)
| Array (cs : list R).

(** [series * cos_theta]: a scalar is broadcast, an array is multiplied entry
    by entry. *)
Definition series_mul (s : list R) (a : ndarray) : list R :=
  match a with
  | Scalar c => map (fun d => d * c) s
  | Array cs => map2 Rmult s cs
  end.

(** [series * c] for a scalar [c]. *)
Definition series_scale (s : list R) (c : R) : list R :=
  map (fun d => d * c) s.

(** The [pd.DataFrame] constructor of [energy_df]: one column over the index
    of [vectors_df]. *)
Definition energy_frame (index : list Z) (energy_wh : list R)
  : list EnergySample :=
  map2 mkEnergy index energy_wh.

(** [calculate_energy(vectors_df, panel_efficiency_decimal, ew_tilt_deg,
    ns_tilt_deg)]; an absent tilt ([None]) is the default of the source. *)
Definition calculate_energy (vectors_df : list SunVector)
    (panel_efficiency_decimal : R) (ew_tilt_deg ns_tilt_deg : option R)
  : list EnergySample :=
  let panel_area := 1 in
  let time_interval := 1 / 6 in
  let cos_theta :=
    match ew_tilt_deg, ns_tilt_deg with
    | Some ew, Some ns =>
        let panel_normal := get_panel_normal ew ns in
        let sun_vectors := map xyz vectors_df in
        Array (map (fun d => clip d 0 1)
                   (map (fun sv => dot3 sv panel_normal) sun_vectors))
    | _, _ => Scalar 1
    end in
  let energy_wh :=
    series_scale
      (series_scale
         (series_scale (series_mul (map sv_dni vectors_df) cos_theta)
                       panel_efficiency_decimal)
         panel_area)
      time_interval in
  energy_frame (map sv_time vectors_df) energy_wh.

(** The orientation argument of the specification's [integrate]. *)
Inductive Orientation : Type :=
| Tracking
| Fixed (ew_tilt ns_tilt : R).

Definition ew_of (o : Orientation) : option R :=
  match o with Tracking => None | Fixed ew _ => Some ew end.

Definition ns_of (o : Orientation) : option R :=
  match o with Tracking => None | Fixed _ ns => Some ns end.

Definition integrate (vectors : list SunVector) (efficiency : R)
    (o : Orientation) : list EnergySample :=
  calculate_energy vectors efficiency (ew_of o) (ns_of o).

(** The incidence cosine in the words of the specification. *)
Definition incidence_cosine (o : Orientation) (v : SunVector) : R :=
  match o with
  | Tracking => 1
  | Fixed ew ns => clip (dot3 (xyz v) (get_panel_normal ew ns)) 0 1
  end.

(** The energy of one sample in the words of the specification. *)
Definition sample_energy (efficiency : R) (o : Orientation) (v : SunVector)
  : EnergySample :=
  mkEnergy (sv_time v)
           (sv_dni v * incidence_cosine o v * efficiency * 1 * (1 / 6)).

(** [energy_df['enerji_wh'].sum()]. *)
Definition total_energy (energy_df : list EnergySample) : R :=
  series_sum (map enerji_wh energy_df).

(** ** find_best_fixed_position *)

(** The three variables the search keeps. *)
Record best : Type := mkBest {
  best_energy : R;
  best_ew_tilt : Z;
  best_ns_tilt : Z
}.

(** The total of one orientation of the grid. *)
Definition orientation_total (vectors_df : list SunVector)
    (panel_efficiency_decimal : R) (o : Z * Z) : R :=
  total_energy
    (calculate_energy vectors_df panel_efficiency_decimal
       (Some (IZR (fst o))) (Some (IZR (snd o)))).

(** The body of the inner loop. *)
Definition try_orientation (vectors_df : list SunVector)
    (panel_efficiency_decimal : R) (b : best) (ew_tilt ns_tilt : Z) : best :=
  let total_energy :=
    orientation_total vectors_df panel_efficiency_decimal (ew_tilt, ns_tilt) in
  if Rlt_dec (best_energy b) total_energy
  then mkBest total_energy ew_tilt ns_tilt
  else b.

(** The body of the inner loop at one pair of the grid. *)
Definition visit (vectors_df : list SunVector)
    (panel_efficiency_decimal : R) (b : best) (o : Z * Z) : best :=
  try_orientation vectors_df panel_efficiency_decimal b (fst o) (snd o).

(** The two nested [for] loops over a grid. *)
Definition grid_search (vectors_df : list SunVector)
    (panel_efficiency_decimal : R) (ew_angles ns_angles : list Z) (b : best)
  : best :=
  fold_left
    (fun b ew_tilt =>
       fold_left
         (fun b ns_tilt =>
            try_orientation vectors_df panel_efficiency_decimal b
                            ew_tilt ns_tilt)
         ns_angles b)
    ew_angles b.

Definition coarse_angles : list Z := arange (-90) 91 5.

Definition fine_angles (best_tilt : Z) : list Z :=
  arange (Z.max (-90) (best_tilt - 5)) (Z.min 91 (best_tilt + 6)) 1.

(** The variables of the search after the coarse loops. *)
Definition coarse_search (vectors_df : list SunVector)
    (panel_efficiency_decimal : R) : best :=
  grid_search vectors_df panel_efficiency_decimal coarse_angles coarse_angles
              (mkBest 0 0 0).

(** The variables of the search after the fine loops. *)
Definition search_state (vectors_df : list SunVector)
    (panel_efficiency_decimal : R) : best :=
  let b := coarse_search vectors_df panel_efficiency_decimal in
  let fine_ew_angles := fine_angles (best_ew_tilt b) in
  let fine_ns_angles := fine_angles (best_ns_tilt b) in
  grid_search vectors_df panel_efficiency_decimal
              fine_ew_angles fine_ns_angles b.

(** [find_best_fixed_position(vectors_df, panel_efficiency_decimal)]. *)
Definition find_best_fixed_position (vectors_df : list SunVector)
    (panel_efficiency_decimal : R) : Z * Z :=
  let b := search_state vectors_df panel_efficiency_decimal in
  (best_ew_tilt b, best_ns_tilt b).

(** The grid in the order the loops visit it, and the order itself:
    [ew_tilt] ascending, then [ns_tilt] ascending. *)
Definition coarse_grid : list (Z * Z) := list_prod coarse_angles coarse_angles.

Definition fine_grid (o : Z * Z) : list (Z * Z) :=
  list_prod (fine_angles (fst o)) (fine_angles (snd o)).

Definition row_major_lt (p q : Z * Z) : Prop :=
  (fst p < fst q)%Z \/ (fst p = fst q /\ (snd p < snd q)%Z).

(** ** The relative efficiency of create_visualizations *)

(** A [float64] value where the non-finite ones matter: the quotient of two
    [np.float64] sums is infinite or not-a-number when the divisor is zero;
    numpy warns and returns the value, it does not raise. *)
Inductive np_float : Type :=
| Finite (r : R)
| PosInf
| NegInf
| NaN.

(** [a / b] for two finite [np.float64] values; the divisor of the source is
    a sum of non-negative terms, so its zero is the positive one. *)
Definition np_divide (a b : R) : np_float :=
  if Req_dec_T b 0 then
    if Req_dec_T a 0 then NaN
    else if Rlt_dec 0 a then PosInf else NegInf
  else Finite (a / b).

(** [v * c] for a positive finite constant [c]. *)
Definition np_times (v : np_float) (c : R) : np_float :=
  match v with
  | Finite r => Finite (r * c)
  | PosInf => PosInf
  | NegInf => NegInf
  | NaN => NaN
  end.

Definition is_finite (v : np_float) : Prop :=
  match v with Finite _ => True | _ => False end.

(** The three monthly columns of [monthly_data]; the custom column may be
    missing. *)
Record MonthlyData : Type := mkMonthly {
  enerji_wh_izleme : list R;
  enerji_wh_sabit_eniyi : list R;
  enerji_wh_ozel_sabit : option (list R)
}.

(** [Series.equals] on two columns. *)
Definition series_equals (a b : list R) : bool :=
  if list_eq_dec Req_dec_T a b then true else false.

(** The percentage of one fixed total against the tracking total. *)
Definition relative_efficiency (fixed_energy tracking_energy : R) : np_float :=
  np_times (np_divide fixed_energy tracking_energy) 100.

(** The dictionary [efficiency_data] of the third chart, in insertion
    order. *)
Definition efficiency_data (monthly_data : MonthlyData)
  : list (string * np_float) :=
  let tracking_energy := series_sum (enerji_wh_izleme monthly_data) in
  let optimal_energy := series_sum (enerji_wh_sabit_eniyi monthly_data) in
  let efficiency_data :=
    [("En İyi Sabit"%string, relative_efficiency optimal_energy tracking_energy)] in
  match enerji_wh_ozel_sabit monthly_data with
  | Some ozel =>
      if negb (series_equals ozel (enerji_wh_sabit_eniyi monthly_data)) then
        let custom_energy := series_sum ozel in
        efficiency_data ++
        [("Özel Sabit"%string, relative_efficiency custom_energy tracking_energy)]
      else efficiency_data
  | None => efficiency_data
  end.

(** ** Validity of inputs, in the words of the specification *)

Definition valid_angles (s : PositionSample) : Prop :=
  0 <= apparent_zenith s <= 180 /\ 0 <= azimuth s <= 360.

Definition valid_tilt (t : R) : Prop := -90 <= t <= 90.

Definition tolerance : R := 1 / 1000000.

Definition unit_within_tolerance (v : vec3) : Prop :=
  Rabs (norm3 v - 1) <= tolerance.

(** The vectors are computed in [float64]; the computed components differ
    from the real ones by rounding.  [close_to u v] allows every component of
    [u] to be off by 1e-7 from the one of [v], far more than the rounding of
    a sine, a cosine and a product of numbers of magnitude at most 1. *)
Definition rounding_margin : R := 1 / 10000000.

Definition close_to (u v : vec3) : Prop :=
  let '(u0, u1, u2) := u in
  let '(v0, v1, v2) := v in
  Rabs (u0 - v0) <= rounding_margin
  /\ Rabs (u1 - v1) <= rounding_margin
  /\ Rabs (u2 - v2) <= rounding_margin.

(** Every vector close to [v], and [v] itself, has magnitude within the
    tolerance of 1. *)
Definition robustly_unit (v : vec3) : Prop :=
  forall u, close_to u v -> unit_within_tolerance u.

(** ** plot_panel of create_visualizations *)

(** The five corners of the flat square, the first repeated to close the
    outline; [width] and [height] are 0.5. *)
Definition corners_flat : list vec3 :=
  let width := 1 / 2 in
  let height := 1 / 2 in
  [(- width, - height, 0);
   (width, - height, 0);
   (width, height, 0);
   (- width, height, 0);
   (- width, - height, 0)].

(** The corners the chart draws: every flat corner through [Ry] and then
    [Rx], the two matrices being built as in [get_panel_normal]. *)
Definition panel_corners (ew_tilt ns_tilt : R) : list vec3 :=
  let Ry_ := Ry (radians ew_tilt) in
  let Rx_ := Rx (radians ns_tilt) in
  map (fun corner =>
         let rotated := matvec Ry_ corner in
         let rotated := matvec Rx_ rotated in
         rotated)
      corners_flat.

(** ** The time zones of the form *)

(** [range(a, b)]. *)
Definition py_range (a b : Z) : list Z :=
  map (fun i => (a + Z.of_nat i)%Z) (seq 0 (Z.to_nat (b - a))).

(** The format [{n:+d}]: the sign, always, and the decimal digits. *)
Definition format_plus_d (n : Z) : string :=
  if (n <? 0)%Z then NilZero.string_of_int (Z.to_int n)
  else ("+" ++ NilZero.string_of_int (Z.to_int n))%string.

(** A dictionary with string keys, in insertion order. *)
Definition dict (V : Type) : Type := list (string * V).

Fixpoint dict_get {V : Type} (d : dict V) (key : string) : option V :=
  match d with
  | [] => None
  | (k, v) :: d' => if String.eqb k key then Some v else dict_get d' key
  end.

(** [d[key] = value]: the value of an existing key is replaced in place, a
    new key goes last. *)
Fixpoint dict_set {V : Type} (d : dict V) (key : string) (value : V) : dict V :=
  match d with
  | [] => [(key, value)]
  | (k, v) :: d' =>
      if String.eqb k key then (k, value) :: d'
      else (k, v) :: dict_set d' key value
  end.

(** The loop of [__init__] over the offsets -12 .. 14: the list of the
    combobox and the map from its entries to the names of the zones. *)
Definition tz_tables : list string * dict string :=
  fold_left
    (fun tables offset =>
       let '(tz_display_options, tz_value_map) := tables in
       let display := ("GMT" ++ format_plus_d offset)%string in
       let value := ("Etc/GMT" ++ format_plus_d (- offset))%string in
       (tz_display_options ++ [display], dict_set tz_value_map display value))
    (py_range (-12) 15) ([], []).

Definition tz_display_options : list string := fst tz_tables.
Definition tz_value_map : dict string := snd tz_tables.
Definition default_tz_display : string := "GMT+3".

(** ** on_calculate_click and the guards of calculate_and_export *)

(** The conversions of Python the handler calls on the texts of the form;
    [None] stands for the [ValueError] of a text that does not parse. *)
Record Builtins : Type := mkBuiltins {
  py_int : string -> option Z;
  py_float : string -> option R;
  py_strip : string -> string
}.

(** What the widgets and the file dialog hold when the button is pressed. *)
Record Form : Type := mkForm {
  year_entry : string;
  efficiency_entry : string;
  custom_position_var : bool;
  ew_tilt_entry : string;
  ns_tilt_entry : string;
  name_entry : string;
  lat_entry : string;
  lon_entry : string;
  tz_combo : string;
  save_path : string
}.

(** The arguments of [calculate_and_export], for the one location of the
    form. *)
Record ExportCall : Type := mkExportCall {
  loc_name : string;
  loc_latitude : R;
  loc_longitude : R;
  loc_timezone : string;
  call_start_year : Z;
  call_efficiency : R;
  call_custom_ew_tilt : option R;
  call_custom_ns_tilt : option R;
  call_filepath : string
}.

(** How the handler ends: one of its four error boxes, the cancelled save, or
    the call of [calculate_and_export]. *)
Inductive click_outcome : Type :=
| InputError        (* the handler of ValueError around the whole body *)
| CustomTiltError   (* the handler of ValueError around the custom tilts *)
| MissingField      (* a text of the location is empty *)
| BadTimezone       (* the KeyError of the time-zone map *)
| Cancelled         (* no path came back from the dialog *)
| Export (call : ExportCall).

(** Truth of a string in Python: it is not empty. *)
Definition truthy (s : string) : bool := negb (String.eqb s "").

Definition Rleb (a b : R) : bool := if Rle_dec a b then true else false.

(** The custom tilts, inside their own [try]: [None] is the error box. *)
Definition read_custom_tilts (B : Builtins) (f : Form) : option (R * R) :=
  match py_float B (ew_tilt_entry f) with
  | None => None
  | Some custom_ew_tilt =>
      match py_float B (ns_tilt_entry f) with
      | None => None
      | Some custom_ns_tilt =>
          if negb (Rleb (-90) custom_ew_tilt && Rleb custom_ew_tilt 90)%bool then None
          else if negb (Rleb (-90) custom_ns_tilt && Rleb custom_ns_tilt 90)%bool
          then None
          else Some (custom_ew_tilt, custom_ns_tilt)
      end
  end.

(** The location, the dialog and the call, once the year, the efficiency and
    the custom tilts are read. *)
Definition read_location_and_export (B : Builtins) (f : Form) (start_year : Z)
    (panel_efficiency_decimal : R) (custom_ew_tilt custom_ns_tilt : option R)
  : click_outcome :=
  let name := py_strip B (name_entry f) in
  let lat_str := lat_entry f in
  let lon_str := lon_entry f in
  let selected_display_tz := tz_combo f in
  if negb (truthy name && truthy lat_str && truthy lon_str
           && truthy selected_display_tz)%bool
  then MissingField
  else
    match dict_get tz_value_map selected_display_tz with
    | None => BadTimezone
    | Some tz_value =>
        match py_float B lat_str with
        | None => InputError
        | Some latitude =>
            match py_float B lon_str with
            | None => InputError
            | Some longitude =>
                if truthy (save_path f) then
                  Export (mkExportCall name latitude longitude tz_value
                            start_year panel_efficiency_decimal
                            custom_ew_tilt custom_ns_tilt (save_path f))
                else Cancelled
            end
        end
    end.

(** [on_calculate_click]. *)
Definition on_calculate_click (B : Builtins) (f : Form) : click_outcome :=
  match py_int B (year_entry f) with
  | None => InputError
  | Some start_year =>
      match py_float B (efficiency_entry f) with
      | None => InputError
      | Some efficiency_percent =>
          if negb (Rgtb efficiency_percent 0 && Rleb efficiency_percent 100)%bool
          then InputError
          else
            let panel_efficiency_decimal := efficiency_percent / 100 in
            if ((start_year <? 1950)%Z || (start_year >? 2100)%Z)%bool then InputError
            else if custom_position_var f then
              match read_custom_tilts B f with
              | None => CustomTiltError
              | Some (custom_ew_tilt, custom_ns_tilt) =>
                  read_location_and_export B f start_year
                    panel_efficiency_decimal
                    (Some custom_ew_tilt) (Some custom_ns_tilt)
              end
            else
              read_location_and_export B f start_year
                panel_efficiency_decimal None None
      end
  end.



(** ** calculate_and_export: the monthly frame and the results *)

(** [resample('ME').sum()] on one column of a frame in time order: one bin
    per calendar month from the month of the first row to the month of the
    last, each the sum of the rows of that month, 0 for a month without rows.
    [month_of] is the calendar: the number of the month a timestamp falls
    in, in the time zone of the index. *)
Definition resample_month_sum (month_of : Z -> Z) (df : list EnergySample)
  : list R :=
  match df with
  | [] => []
  | first :: _ =>
      let last_row := last df first in
      map (fun m =>
             series_sum
               (map enerji_wh
                    (filter (fun e => (month_of (en_time e) =? m)%Z) df)))
          (py_range (month_of (en_time first))
                    (month_of (en_time last_row) + 1))
  end.

(** One column of [monthly_data]: the monthly sums, in kWh. *)
Definition monthly_column (month_of : Z -> Z) (df : list EnergySample)
  : list R :=
  map (fun wh => wh / 1000) (resample_month_sum month_of df).

(** The three energy frames of one location and their monthly frame. *)
Definition monthly_data_of (month_of : Z -> Z) (vectors_df : list SunVector)
    (panel_efficiency_decimal : R) (custom_ew_tilt custom_ns_tilt : option R)
  : MonthlyData :=
  let tracking_energy_df :=
    calculate_energy vectors_df panel_efficiency_decimal None None in
  let '(best_ew_tilt, best_ns_tilt) :=
    find_best_fixed_position vectors_df panel_efficiency_decimal in
  let optimal_energy_df :=
    calculate_energy vectors_df panel_efficiency_decimal
      (Some (IZR best_ew_tilt)) (Some (IZR best_ns_tilt)) in
  let custom_energy_df :=
    match custom_ew_tilt, custom_ns_tilt with
    | Some ew, Some ns =>
        calculate_energy vectors_df panel_efficiency_decimal (Some ew) (Some ns)
    | _, _ => optimal_energy_df
    end in
  mkMonthly (monthly_column month_of tracking_energy_df)
            (monthly_column month_of optimal_energy_df)
            (Some (monthly_column month_of custom_energy_df)).

(** The entry of [tum_sonuclar] for one location, without the monthly frame
    itself. *)
Record Results : Type := mkResults {
  eniyi_dogu_bati_egimi : Z;
  eniyi_kuzey_guney_egimi : Z;
  toplam_enerji_izleme : R;
  toplam_enerji_sabit_eniyi : R;
  toplam_enerji_ozel_sabit : R
}.

Definition results_of (month_of : Z -> Z) (vectors_df : list SunVector)
    (panel_efficiency_decimal : R) (custom_ew_tilt custom_ns_tilt : option R)
  : Results :=
  let '(best_ew_tilt, best_ns_tilt) :=
    find_best_fixed_position vectors_df panel_efficiency_decimal in
  let monthly_data :=
    monthly_data_of month_of vectors_df panel_efficiency_decimal
                    custom_ew_tilt custom_ns_tilt in
  mkResults best_ew_tilt best_ns_tilt
    (series_sum (enerji_wh_izleme monthly_data))
    (series_sum (enerji_wh_sabit_eniyi monthly_data))
    (match enerji_wh_ozel_sabit monthly_data with
     | Some ozel => series_sum ozel
     | None => 0
     end).

(** The months of a frame do not decrease along its index. *)
Definition months_in_order (month_of : Z -> Z) (vectors_df : list SunVector)
  : Prop :=
  StronglySorted Z.le (map (fun v => month_of (sv_time v)) vectors_df).

(** Two running bests of searches at efficiencies [e] and [e']: the same
    tilts, and energies in the ratio of the efficiencies. *)
Definition similar_bests (e e' : R) (b b' : best) : Prop :=
  best_ew_tilt b = best_ew_tilt b' /\ best_ns_tilt b = best_ns_tilt b'
  /\ best_energy b * e' = best_energy b' * e.

(** What a form must hold for the handler to reach the export: a year and
    an efficiency that parse and lie in range, custom tilts that parse and
    lie in range when the box is ticked, the four texts of the location, a
    zone of the map, coordinates that parse, and a path. *)
Definition form_accepted (B : Builtins) (f : Form) : Prop :=
  (exists year, py_int B (year_entry f) = Some year
                /\ (1950 <= year <= 2100)%Z)
  /\ (exists p, py_float B (efficiency_entry f) = Some p /\ 0 < p <= 100)
  /\ (custom_position_var f = true ->
      exists ew ns, py_float B (ew_tilt_entry f) = Some ew
                    /\ py_float B (ns_tilt_entry f) = Some ns
                    /\ valid_tilt ew /\ valid_tilt ns)
  /\ py_strip B (name_entry f) <> ""%string
  /\ lat_entry f <> ""%string /\ lon_entry f <> ""%string
  /\ tz_combo f <> ""%string
  /\ (exists tz, dict_get tz_value_map (tz_combo f) = Some tz)
  /\ (exists lat, py_float B (lat_entry f) = Some lat)
  /\ (exists lon, py_float B (lon_entry f) = Some lon)
  /\ save_path f <> ""%string.

(** ** Concrete inputs *)

(** A sample outside the ranges of the specification, in daylight. *)
Definition out_of_range_sample : PositionSample := mkSample 0 200 400 1.

(** Two samples in range: the sun overhead, and the sun due east at 60
    degrees from the zenith. *)
Definition sample_overhead : PositionSample := mkSample 0 0 0 1000.
Definition sample_east : PositionSample := mkSample 1 60 90 800.

(** Two sun vectors on the horizon, due north and due south, of DNI 1: a
    panel without east-west tilt collects the same total when it is tilted
    fully south or fully north. *)
Definition horizon_north : SunVector := mkSunVector 0 0 1 0 1.
Definition horizon_south : SunVector := mkSunVector 1 0 (-1) 0 1.
Definition horizon_pair : list SunVector := [horizon_north; horizon_south].

(** The monthly frame of a year without a daylight sample: the three columns
    are there and have no row. *)
Definition monthly_without_daylight : MonthlyData :=
  mkMonthly [] [] (Some []).

(** One sun vector 2.5 degrees from the zenith, due east, of DNI 1: the
    coarse orientations (0,0) and (5,0) face it under the same angle. *)
Definition tilted_sample : PositionSample := mkSample 0 (5 / 2) 90 1.

Definition tilted_sun : SunVector :=
  mkSunVector 0 (sin (radians (5 / 2))) 0 (cos (radians (5 / 2))) 1.





(** A monthly frame of two months with a custom column of its own. *)
Definition two_months : MonthlyData := mkMonthly [3; 4] [2; 3] (Some [1; 2]).

(** * Properties *)

(** ** Comparisons and element-wise operations *)

Lemma Rgtb_true (a b : R) : Rgtb a b = true <-> b < a.
Proof.
  unfold Rgtb. destruct (Rlt_dec b a); split; intros; try discriminate; tauto.
Qed.

Lemma Rgtb_false (a b : R) : Rgtb a b = false <-> a <= b.
Proof.
  unfold Rgtb. destruct (Rlt_dec b a); split; intros; try discriminate; lra.
Qed.

Lemma map2_map {A B C D E : Type} (f : C -> D -> E) (g : A -> C) (h : B -> D)
    (l : list A) (l' : list B) :
  map2 f (map g l) (map h l') = map2 (fun a b => f (g a) (h b)) l l'.
Proof.
  revert l'. induction l as [|a l IH]; intros [|b l']; simpl; trivial.
  now rewrite IH.
Qed.

Lemma map2_diag {A C : Type} (f : A -> A -> C) (l : list A) :
  map2 f l l = map (fun a => f a a) l.
Proof. induction l as [|a l IH]; simpl; [trivial | now rewrite IH]. Qed.

(** ** calculate_solar_vectors: the daylight filter and the projection *)

Lemma vectors_frame_rows (rows : list PositionSample) :
  vectors_frame (map timestamp rows)
    (map (fun s => sin (radians (apparent_zenith s)) * sin (radians (azimuth s))) rows)
    (map (fun s => sin (radians (apparent_zenith s)) * cos (radians (azimuth s))) rows)
    (map (fun s => cos (radians (apparent_zenith s))) rows)
    (map dni rows)
  = map sun_vector rows.
Proof.
  induction rows as [|s rows IH]; simpl; [trivial|].
  rewrite IH. reflexivity.
Qed.

Lemma solar_vectors_of_filter (solpos : list PositionSample) :
  solar_vectors_of solpos = map sun_vector (filter daylight solpos).
Proof.
  unfold solar_vectors_of.
  change (fun s => Rgtb (dni s) 0) with daylight.
  rewrite !map2_map, !map2_diag, map_map.
  apply vectors_frame_rows.
Qed.

Lemma sun_vector_dni (s : PositionSample) : sv_dni (sun_vector s) = dni s.
Proof. reflexivity. Qed.


(** C1.  Once the provider has returned the samples, the function returns,
    prints nothing, and its frame is the list of the sun vectors
    [(sin Z sin A, sin Z cos A, cos Z)] of the samples whose DNI strictly
    exceeds 0, in the order of the input; so a sample is retained if and only
    if its DNI is positive, a dropped sample has no row, and the output is no
    longer than the input. *)
Theorem solar_vectors_daylight_projection (samples : list PositionSample) :
  calculate_solar_vectors (Returned samples)
    = mkRun (Returned (map sun_vector (filter daylight samples))) []
  /\ (forall s, In s samples ->
        (In (sun_vector s) (solar_vectors_of samples) <-> 0 < dni s))
  /\ (forall v, In v (solar_vectors_of samples) ->
        exists s, In s samples /\ 0 < dni s /\ v = sun_vector s)
  /\ (length (solar_vectors_of samples) <= length samples)%nat.
Proof.
  assert (Hin : forall v, In v (solar_vectors_of samples) ->
            exists s, In s samples /\ 0 < dni s /\ v = sun_vector s).
  { intros v Hv. rewrite solar_vectors_of_filter in Hv.
    apply in_map_iff in Hv. destruct Hv as [s [Hs Hf]].
    apply filter_In in Hf. destruct Hf as [Hs' Hd].
    exists s. repeat split; auto. now apply Rgtb_true. }
  repeat split.
  - simpl. now rewrite solar_vectors_of_filter.
  - intros Hv. destruct (Hin _ Hv) as [s' [_ [Hpos Heq]]].
    rewrite <- (sun_vector_dni s), Heq. exact Hpos.
  - intros Hpos. rewrite solar_vectors_of_filter.
    apply in_map. apply filter_In. split; [assumption|].
    now apply Rgtb_true.
  - exact Hin.
  - rewrite solar_vectors_of_filter, length_map. apply filter_length_le.
Qed.

(** ** calculate_solar_vectors: what raises and what is printed *)

(** The claim of C5 fails on the source: the function checks neither the
    ranges of the angles nor that there is a sample.  An empty sequence and a
    sample with zenith 200 and azimuth 400 both make it return. *)
Lemma solar_vectors_not_validated :
  ~ valid_angles out_of_range_sample
  /\ calculate_solar_vectors (Returned [out_of_range_sample])
       = mkRun (Returned [sun_vector out_of_range_sample]) []
  /\ calculate_solar_vectors (Returned []) = mkRun (Returned []) [].
Proof.
  split; [|split].
  - unfold valid_angles, out_of_range_sample. simpl. lra.
  - simpl. rewrite solar_vectors_of_filter. simpl.
    unfold daylight. simpl.
    assert (H : Rgtb 1 0 = true) by (apply Rgtb_true; lra).
    now rewrite H.
  - reflexivity.
Qed.

(** C5, as the source has it.  The function validates nothing: whatever the
    samples are, empty or with angles out of range, it returns the projection
    of the daylight samples and prints nothing.  It raises exactly when the
    provider raised, with the provider's exception, after printing one line. *)
Theorem solar_vectors_raise_only_from_provider :
  (forall samples,
      calculate_solar_vectors (Returned samples)
        = mkRun (Returned (map sun_vector (filter daylight samples))) [])
  /\ (forall e,
      calculate_solar_vectors (Raised e)
        = mkRun (Raised e) [(hata_mesaji ++ e)%string])
  /\ (forall provider e,
      result (calculate_solar_vectors provider) = Raised e <->
      provider = Raised e)
  /\ (forall provider,
      stdout (calculate_solar_vectors provider) = [] <->
      exists samples, provider = Returned samples).
Proof.
  repeat split.
  - intros samples. simpl. now rewrite solar_vectors_of_filter.
  - destruct provider; simpl; intros H; [discriminate | congruence].
  - intros ->. reflexivity.
  - destruct provider as [samples | e']; simpl; intros H.
    + now exists samples.
    + discriminate.
  - intros [samples ->]. reflexivity.
Qed.

(** ** get_panel_normal *)

Lemma get_panel_normal_components (ew ns : R) :
  get_panel_normal ew ns
  = (sin (radians ew),
     - (cos (radians ew) * sin (radians ns)),
     cos (radians ew) * cos (radians ns)).
Proof.
  unfold get_panel_normal, matvec, Ry, Rx, dot3.
  f_equal; [f_equal|]; ring.
Qed.

Lemma radians_0 : radians 0 = 0.
Proof. unfold radians. lra. Qed.

Lemma radians_90 : radians 90 = PI / 2.
Proof. unfold radians. lra. Qed.

(** C3.  The normal is [Rx(ns_tilt)] applied to [Ry(ew_tilt)] applied to
    [(0,0,1)], with the two rotations as the specification writes them and
    the tilts converted to radians; and [normal(0,0)] is [(0,0,1)].  The order
    is this one and not the other: at tilts (90, 90) the function gives
    [(1,0,0)] where the rotations in the other order give [(0,-1,0)]. *)
Theorem panel_normal_rotation_order (ew_tilt ns_tilt : R) :
  get_panel_normal ew_tilt ns_tilt
    = rotate_x (radians ns_tilt) (rotate_y (radians ew_tilt) (0, 0, 1))
  /\ (forall theta v, matvec (Ry theta) v = rotate_y theta v)
  /\ (forall theta v, matvec (Rx theta) v = rotate_x theta v)
  /\ get_panel_normal 0 0 = (0, 0, 1)
  /\ get_panel_normal 90 90 = (1, 0, 0)
  /\ rotate_y (radians 90) (rotate_x (radians 90) (0, 0, 1)) = (0, -1, 0).
Proof.
  assert (HRy : forall theta v, matvec (Ry theta) v = rotate_y theta v).
  { intros theta [[x y] z]. unfold matvec, Ry, rotate_y, dot3.
    f_equal; [f_equal|]; ring. }
  assert (HRx : forall theta v, matvec (Rx theta) v = rotate_x theta v).
  { intros theta [[x y] z]. unfold matvec, Rx, rotate_x, dot3.
    f_equal; [f_equal|]; ring. }
  repeat split; auto.
  - unfold get_panel_normal. now rewrite HRy, HRx.
  - rewrite get_panel_normal_components, radians_0, sin_0, cos_0.
    f_equal; [f_equal|]; ring.
  - rewrite get_panel_normal_components, radians_90, sin_PI2, cos_PI2.
    f_equal; [f_equal|]; ring.
  - unfold rotate_x, rotate_y. rewrite radians_90, sin_PI2, cos_PI2.
    f_equal; [f_equal|]; ring.
Qed.

(** ** Magnitudes *)

Lemma sin_cos_sq (t : R) : sin t * sin t + cos t * cos t = 1.
Proof. generalize (sin2_cos2 t). unfold Rsqr. trivial. Qed.

Lemma norm3_sun_vector (s : PositionSample) : norm3 (xyz (sun_vector s)) = 1.
Proof.
  unfold sun_vector, xyz, norm3. simpl.
  set (Z := radians (apparent_zenith s)). set (A := radians (azimuth s)).
  replace (sin Z * sin A * (sin Z * sin A) + sin Z * cos A * (sin Z * cos A)
           + cos Z * cos Z)
    with (sin Z * sin Z * (sin A * sin A + cos A * cos A) + cos Z * cos Z)
    by ring.
  rewrite (sin_cos_sq A), Rmult_1_r, (sin_cos_sq Z). apply sqrt_1.
Qed.

(** Both matrices preserve the magnitude of every vector, whatever the
    angle. *)
Lemma norm3_Ry (theta : R) (v : vec3) : norm3 (matvec (Ry theta) v) = norm3 v.
Proof.
  destruct v as [[x y] z]. unfold matvec, Ry, dot3, norm3. f_equal.
  transitivity
    ((x * x + z * z) * (sin theta * sin theta + cos theta * cos theta) + y * y);
    [ring | rewrite sin_cos_sq; ring].
Qed.

Lemma norm3_Rx (theta : R) (v : vec3) : norm3 (matvec (Rx theta) v) = norm3 v.
Proof.
  destruct v as [[x y] z]. unfold matvec, Rx, dot3, norm3. f_equal.
  transitivity
    ((y * y + z * z) * (sin theta * sin theta + cos theta * cos theta) + x * x);
    [ring | rewrite sin_cos_sq; ring].
Qed.

Lemma norm3_up : norm3 (0, 0, 1) = 1.
Proof.
  unfold norm3. replace (0 * 0 + 0 * 0 + 1 * 1) with 1 by ring. apply sqrt_1.
Qed.

Lemma norm3_panel_normal (ew ns : R) : norm3 (get_panel_normal ew ns) = 1.
Proof.
  unfold get_panel_normal. rewrite norm3_Rx, norm3_Ry. apply norm3_up.
Qed.

Lemma unit_is_within_tolerance (v : vec3) :
  norm3 v = 1 -> unit_within_tolerance v.
Proof.
  intros H. unfold unit_within_tolerance, tolerance. rewrite H.
  replace (1 - 1) with 0 by ring. rewrite Rabs_R0. lra.
Qed.

Lemma Rabs_le_iff (x d : R) : Rabs x <= d <-> - d <= x <= d.
Proof.
  split; [|apply Rabs_le].
  unfold Rabs. destruct (Rcase_abs x); lra.
Qed.

Lemma square_stable (a a' d : R) :
  a * a <= 1 -> 0 <= d <= 1 -> Rabs (a' - a) <= d ->
  Rabs (a' * a' - a * a) <= 3 * d.
Proof.
  intros Ha Hd H.
  assert (Ha1 : -1 <= a <= 1) by nra.
  apply Rabs_le_iff in H. apply Rabs_le_iff. nra.
Qed.

Lemma sqrt_stable (s : R) :
  0 <= s -> Rabs (s - 1) <= 9 * rounding_margin ->
  Rabs (sqrt s - 1) <= tolerance.
Proof.
  unfold rounding_margin, tolerance. intros H0 H. apply Rabs_le_iff in H.
  pose proof (sqrt_pos s) as Hn. pose proof (sqrt_sqrt s H0) as Hsq.
  set (n := sqrt s) in *. apply Rabs_le_iff. nra.
Qed.

Lemma close_to_refl (v : vec3) : close_to v v.
Proof.
  destruct v as [[a b] c]. unfold close_to, rounding_margin.
  replace (a - a) with 0 by ring. replace (b - b) with 0 by ring.
  replace (c - c) with 0 by ring. rewrite Rabs_R0. lra.
Qed.

(** A vector of magnitude 1 keeps a magnitude within the tolerance of 1 when
    its components are perturbed by at most the rounding margin. *)
Lemma norm3_stable (v : vec3) : norm3 v = 1 -> robustly_unit v.
Proof.
  intros Hv u Hu. destruct v as [[a b] c]. destruct u as [[a' b'] c'].
  unfold norm3 in Hv. unfold close_to in Hu. destruct Hu as [Ha [Hb Hc]].
  assert (Hs0 : 0 <= a * a + b * b + c * c) by nra.
  assert (Hs : a * a + b * b + c * c = 1).
  { rewrite <- (sqrt_sqrt _ Hs0), Hv. ring. }
  assert (Hm : 0 <= rounding_margin <= 1) by (unfold rounding_margin; lra).
  assert (Ha2 : a * a <= 1) by nra.
  assert (Hb2 : b * b <= 1) by nra.
  assert (Hc2 : c * c <= 1) by nra.
  pose proof (square_stable a a' _ Ha2 Hm Ha) as Ea.
  pose proof (square_stable b b' _ Hb2 Hm Hb) as Eb.
  pose proof (square_stable c c' _ Hc2 Hm Hc) as Ec.
  apply Rabs_le_iff in Ea, Eb, Ec.
  unfold unit_within_tolerance, norm3.
  apply sqrt_stable; [nra|]. apply Rabs_le_iff. lra.
Qed.

Lemma robustly_unit_within_tolerance (v : vec3) :
  robustly_unit v -> unit_within_tolerance v.
Proof. intros H. apply H, close_to_refl. Qed.

(** C8.  For samples whose zenith lies in [0,180] and azimuth in [0,360],
    every vector the projection produces has magnitude within 1e-6 of 1; and
    for tilts in [-90,90] the panel normal has magnitude within 1e-6 of 1.
    Both hold with room for rounding: every vector within 1e-7 of the
    produced one, component by component, is within 1e-6 of magnitude 1. *)
Theorem magnitudes_within_tolerance
    (samples : list PositionSample) (ew_tilt ns_tilt : R)
    (Hsamples : Forall valid_angles samples)
    (Hew : valid_tilt ew_tilt) (Hns : valid_tilt ns_tilt) :
  (forall vectors,
      result (calculate_solar_vectors (Returned samples)) = Returned vectors ->
      Forall (fun v => unit_within_tolerance (xyz v) /\ robustly_unit (xyz v))
             vectors)
  /\ unit_within_tolerance (get_panel_normal ew_tilt ns_tilt)
  /\ robustly_unit (get_panel_normal ew_tilt ns_tilt).
Proof.
  split; [|split].
  - intros vectors Hres. simpl in Hres. injection Hres as <-.
    rewrite solar_vectors_of_filter. apply Forall_forall. intros v Hv.
    apply in_map_iff in Hv. destruct Hv as [s [<- _]].
    split; [apply unit_is_within_tolerance | apply norm3_stable];
      apply norm3_sun_vector.
  - apply unit_is_within_tolerance, norm3_panel_normal.
  - apply norm3_stable, norm3_panel_normal.
Qed.

(** The two samples in range and the tilts (30, -45). *)
Lemma magnitudes_within_tolerance_witness :
  Forall valid_angles [sample_overhead; sample_east]
  /\ valid_tilt 30 /\ valid_tilt (-45)
  /\ (forall vectors,
        result (calculate_solar_vectors (Returned [sample_overhead; sample_east]))
          = Returned vectors ->
        Forall (fun v => unit_within_tolerance (xyz v) /\ robustly_unit (xyz v))
               vectors)
  /\ unit_within_tolerance (get_panel_normal 30 (-45)).
Proof.
  assert (H1 : Forall valid_angles [sample_overhead; sample_east]).
  { repeat constructor; simpl; lra. }
  assert (H2 : valid_tilt 30) by (unfold valid_tilt; lra).
  assert (H3 : valid_tilt (-45)) by (unfold valid_tilt; lra).
  split; [exact H1|]. split; [exact H2|]. split; [exact H3|].
  pose proof (magnitudes_within_tolerance _ 30 (-45) H1 H2 H3) as [Hv [Hn _]].
  split; [exact Hv | exact Hn].
Defined.

(** C10.  The normal is defined for every pair of real tilts, in [-90,90] or
    not; both matrices preserve magnitudes whatever their angle, so the
    result always has magnitude exactly 1 in real arithmetic, and every
    vector within the rounding margin of it has magnitude within the
    tolerance of 1. *)
Theorem panel_normal_total_unit (ew_tilt ns_tilt : R) :
  (exists normal, get_panel_normal ew_tilt ns_tilt = normal
                  /\ norm3 normal = 1
                  /\ unit_within_tolerance normal
                  /\ robustly_unit normal)
  /\ (forall theta v, norm3 (matvec (Ry theta) v) = norm3 v)
  /\ (forall theta v, norm3 (matvec (Rx theta) v) = norm3 v).
Proof.
  split; [|split].
  - exists (get_panel_normal ew_tilt ns_tilt). split; [reflexivity|].
    split; [apply norm3_panel_normal|].
    split; [apply unit_is_within_tolerance | apply norm3_stable];
      apply norm3_panel_normal.
  - apply norm3_Ry.
  - apply norm3_Rx.
Qed.

(** ** calculate_energy *)

Lemma clip_unit_interval (d : R) : 0 <= clip d 0 1 <= 1.
Proof.
  unfold clip, Rmin, Rmax.
  destruct (Rle_dec d 0); destruct (Rle_dec _ 1); lra.
Qed.

Lemma clip_below (v : R) : v <= 0 -> clip v 0 1 = 0.
Proof.
  intros H. unfold clip, Rmin, Rmax.
  destruct (Rle_dec v 0); destruct (Rle_dec _ 1); lra.
Qed.

Lemma clip_above (v : R) : 1 <= v -> clip v 0 1 = 1.
Proof.
  intros H. unfold clip, Rmin, Rmax.
  destruct (Rle_dec v 0); destruct (Rle_dec _ 1); lra.
Qed.

Lemma incidence_cosine_bounds (o : Orientation) (v : SunVector) :
  0 <= incidence_cosine o v <= 1.
Proof. destruct o; simpl; [lra | apply clip_unit_interval]. Qed.

(** The frame the source builds column by column is the row-wise map of the
    specification's per-sample energy. *)
Lemma integrate_rows (vectors : list SunVector) (efficiency : R)
    (o : Orientation) :
  integrate vectors efficiency o = map (sample_energy efficiency o) vectors.
Proof.
  unfold integrate, calculate_energy, energy_frame, series_scale, series_mul.
  destruct o as [|ew ns]; simpl.
  - rewrite !map_map, map2_map, map2_diag. reflexivity.
  - rewrite !map_map, (map2_map Rmult), map2_diag, map_map, map2_map, map2_diag.
    reflexivity.
Qed.

(** With one tilt given and the other absent the source also takes the
    tracking branch. *)
Lemma calculate_energy_one_tilt_absent (vectors : list SunVector)
    (efficiency t : R) :
  calculate_energy vectors efficiency (Some t) None
    = calculate_energy vectors efficiency None None
  /\ calculate_energy vectors efficiency None (Some t)
    = calculate_energy vectors efficiency None None.
Proof. split; reflexivity. Qed.

Lemma sample_energy_nonneg (efficiency : R) (o : Orientation) (v : SunVector) :
  0 <= efficiency -> 0 <= sv_dni v -> 0 <= enerji_wh (sample_energy efficiency o v).
Proof.
  intros He Hd. simpl. pose proof (incidence_cosine_bounds o v) as [Hc _].
  assert (0 <= sv_dni v * incidence_cosine o v) by (apply Rmult_le_pos; lra).
  assert (0 <= sv_dni v * incidence_cosine o v * efficiency)
    by (apply Rmult_le_pos; lra).
  lra.
Qed.

(** C2.  For an efficiency in (0,1] and sun vectors of non-negative DNI, the
    integrator returns one sample per sun vector, in the same order and under
    the same index, whose energy is DNI * cosine * efficiency * 1 * 1/6 with
    cosine 1 when tracking and the clipped dot product with the panel normal
    otherwise; every energy is non-negative. *)
Theorem energy_per_sample
    (vectors : list SunVector) (efficiency : R) (o : Orientation)
    (Heff : 0 < efficiency <= 1)
    (Hdni : Forall (fun v => 0 <= sv_dni v) vectors) :
  integrate vectors efficiency o = map (sample_energy efficiency o) vectors
  /\ length (integrate vectors efficiency o) = length vectors
  /\ map en_time (integrate vectors efficiency o) = map sv_time vectors
  /\ (forall v, incidence_cosine Tracking v = 1)
  /\ (forall ew ns v,
        incidence_cosine (Fixed ew ns) v
          = Rmin (Rmax (dot3 (xyz v) (get_panel_normal ew ns)) 0) 1)
  /\ Forall (fun e => 0 <= enerji_wh e) (integrate vectors efficiency o).
Proof.
  rewrite integrate_rows. repeat split.
  - apply length_map.
  - rewrite map_map. reflexivity.
  - apply Forall_forall. intros e He.
    apply in_map_iff in He. destruct He as [v [<- Hv]].
    rewrite Forall_forall in Hdni.
    apply sample_energy_nonneg; [lra | auto].
Qed.

(** The two samples in range on a flat panel of efficiency 0.2. *)
Lemma energy_per_sample_witness :
  0 < 1 / 5 <= 1
  /\ Forall (fun v => 0 <= sv_dni v) [sun_vector sample_overhead; sun_vector sample_east]
  /\ integrate [sun_vector sample_overhead; sun_vector sample_east] (1 / 5) (Fixed 0 0)
     = map (sample_energy (1 / 5) (Fixed 0 0))
           [sun_vector sample_overhead; sun_vector sample_east].
Proof.
  assert (He : 0 < 1 / 5 <= 1) by lra.
  assert (Hd : Forall (fun v => 0 <= sv_dni v)
                 [sun_vector sample_overhead; sun_vector sample_east]).
  { repeat constructor; simpl; lra. }
  split; [exact He|]. split; [exact Hd|].
  exact (proj1 (energy_per_sample _ (1 / 5) (Fixed 0 0) He Hd)).
Defined.

(** The two scenarios of the specification: the sun overhead with DNI 1000
    on a flat panel of efficiency 0.2 gives 1000 * 0.2 / 6 Wh, and a tracking
    panel under DNI 800 gives 800 * 0.2 / 6 Wh whatever the angles. *)
Example overhead_vector :
  sun_vector sample_overhead = mkSunVector 0 0 0 1 1000.
Proof.
  unfold sun_vector, sample_overhead. cbn [apparent_zenith azimuth timestamp dni].
  rewrite radians_0, sin_0, cos_0. f_equal; ring.
Qed.

Example overhead_flat_energy :
  integrate [sun_vector sample_overhead] (1 / 5) (Fixed 0 0)
  = [mkEnergy 0 (100 / 3)].
Proof.
  rewrite integrate_rows, overhead_vector. cbn [map].
  unfold sample_energy, incidence_cosine, xyz.
  cbn [sv_time sv_dni sv_x sv_y sv_z].
  rewrite get_panel_normal_components, radians_0, sin_0, cos_0.
  unfold dot3. rewrite clip_above by lra. f_equal. f_equal. field.
Qed.

Example east_tracking_energy :
  integrate [sun_vector sample_east] (1 / 5) Tracking = [mkEnergy 1 (80 / 3)].
Proof.
  rewrite integrate_rows. cbn [map].
  unfold sample_energy, incidence_cosine, sun_vector, sample_east.
  cbn [sv_time sv_dni timestamp dni]. f_equal. f_equal. field.
Qed.

(** ** Tracking dominates every fixed orientation *)

Lemma series_sum_le (f g : SunVector -> R) (vectors : list SunVector) :
  (forall v, In v vectors -> f v <= g v) ->
  series_sum (map f vectors) <= series_sum (map g vectors).
Proof.
  induction vectors as [|v vectors IH]; intros H; simpl; [lra|].
  assert (f v <= g v) by (apply H; now left).
  assert (series_sum (map f vectors) <= series_sum (map g vectors))
    by (apply IH; intros; apply H; now right).
  fold (series_sum (map f vectors)). fold (series_sum (map g vectors)). lra.
Qed.

Lemma total_energy_rows (vectors : list SunVector) (efficiency : R)
    (o : Orientation) :
  total_energy (integrate vectors efficiency o)
  = series_sum (map (fun v => enerji_wh (sample_energy efficiency o v)) vectors).
Proof. unfold total_energy. now rewrite integrate_rows, map_map. Qed.

(** C6.  For sun vectors of non-negative DNI and a non-negative efficiency,
    the total of the tracking mode is at least the total of every fixed
    orientation. *)
Theorem tracking_dominates_fixed
    (vectors : list SunVector) (efficiency ew_tilt ns_tilt : R)
    (Heff : 0 <= efficiency)
    (Hdni : Forall (fun v => 0 <= sv_dni v) vectors) :
  total_energy (calculate_energy vectors efficiency (Some ew_tilt) (Some ns_tilt))
  <= total_energy (calculate_energy vectors efficiency None None).
Proof.
  change (total_energy (integrate vectors efficiency (Fixed ew_tilt ns_tilt))
          <= total_energy (integrate vectors efficiency Tracking)).
  rewrite !total_energy_rows. apply series_sum_le. intros v Hv.
  rewrite Forall_forall in Hdni. specialize (Hdni v Hv).
  cbn [sample_energy enerji_wh incidence_cosine].
  pose proof (clip_unit_interval (dot3 (xyz v) (get_panel_normal ew_tilt ns_tilt)))
    as [_ Hc].
  assert (H : sv_dni v * clip (dot3 (xyz v) (get_panel_normal ew_tilt ns_tilt)) 0 1
              <= sv_dni v * 1)
    by (apply Rmult_le_compat_l; assumption).
  assert (H' : sv_dni v * clip (dot3 (xyz v) (get_panel_normal ew_tilt ns_tilt)) 0 1
                 * efficiency
               <= sv_dni v * 1 * efficiency)
    by (apply Rmult_le_compat_r; assumption).
  lra.
Qed.

(** The two samples in range, efficiency 0.2, tilts (30, -45). *)
Lemma tracking_dominates_fixed_witness :
  0 <= 1 / 5
  /\ Forall (fun v => 0 <= sv_dni v) [sun_vector sample_overhead; sun_vector sample_east]
  /\ total_energy
       (calculate_energy [sun_vector sample_overhead; sun_vector sample_east]
          (1 / 5) (Some 30) (Some (-45)))
     <= total_energy
          (calculate_energy [sun_vector sample_overhead; sun_vector sample_east]
             (1 / 5) None None).
Proof.
  assert (He : 0 <= 1 / 5) by lra.
  assert (Hd : Forall (fun v => 0 <= sv_dni v)
                 [sun_vector sample_overhead; sun_vector sample_east]).
  { repeat constructor; simpl; lra. }
  split; [exact He|]. split; [exact Hd|].
  exact (tracking_dominates_fixed _ (1 / 5) 30 (-45) He Hd).
Defined.

(** ** np.arange and the order of the grid *)

Lemma arange_In (start stop step x : Z) :
  (0 < step)%Z -> In x (arange start stop step) ->
  (start <= x < stop)%Z.
Proof.
  intros Hstep Hin. unfold arange in Hin.
  apply in_map_iff in Hin. destruct Hin as [i [<- Hi]].
  apply in_seq in Hi. destruct Hi as [_ Hi]. simpl in Hi.
  assert (Hn : (Z.of_nat i < (stop - start + step - 1) / step)%Z) by lia.
  assert (Hq : (step * ((stop - start + step - 1) / step)
                <= stop - start + step - 1)%Z)
    by (apply Z.mul_div_le; lia).
  nia.
Qed.

Lemma arange_sorted_from (start step : Z) (n k : nat) :
  (0 < step)%Z ->
  StronglySorted Z.lt
    (map (fun i => (start + step * Z.of_nat i)%Z) (seq k n)).
Proof.
  intros Hstep. revert k. induction n as [|n IH]; intros k; simpl.
  - constructor.
  - constructor; [apply IH|].
    apply Forall_forall. intros y Hy.
    apply in_map_iff in Hy. destruct Hy as [i [<- Hi]].
    apply in_seq in Hi. nia.
Qed.

Lemma arange_sorted (start stop step : Z) :
  (0 < step)%Z -> StronglySorted Z.lt (arange start stop step).
Proof. intros. now apply arange_sorted_from. Qed.

Lemma StronglySorted_app {A : Type} (ord : A -> A -> Prop) (l l' : list A) :
  StronglySorted ord l -> StronglySorted ord l' ->
  (forall x y, In x l -> In y l' -> ord x y) ->
  StronglySorted ord (l ++ l').
Proof.
  induction l as [|a l IH]; intros Hl Hl' Hcross; simpl; [assumption|].
  inversion Hl as [|? ? Hs Hf]; subst.
  constructor.
  - apply IH; auto. intros x y Hx Hy. apply Hcross; [now right | assumption].
  - apply Forall_app. split; [assumption|].
    apply Forall_forall. intros y Hy. apply Hcross; [now left | assumption].
Qed.

Lemma StronglySorted_before {A : Type} (ord : A -> A -> Prop)
    (pre post : list A) (o : A) :
  StronglySorted ord (pre ++ o :: post) ->
  (forall p, In p pre -> ord p o) /\ (forall q, In q post -> ord o q).
Proof.
  induction pre as [|a pre IH]; simpl; intros H;
    inversion H as [|? ? Hs Hf]; subst.
  - split; [intros p [] |]. now apply Forall_forall.
  - destruct (IH Hs) as [Hpre Hpost]. split; [|assumption].
    intros p [<- | Hp]; [|auto].
    rewrite Forall_forall in Hf. apply Hf. apply in_or_app. right. now left.
Qed.

(** The pairs of two ascending lists, in the order of the nested loops, are
    ascending in row-major order. *)
Lemma list_prod_row_major (ews nss : list Z) :
  StronglySorted Z.lt ews -> StronglySorted Z.lt nss ->
  StronglySorted row_major_lt (list_prod ews nss).
Proof.
  intros Hews Hnss. induction Hews as [|ew ews Hs IH Hf]; simpl.
  - constructor.
  - apply StronglySorted_app.
    + clear -Hnss. induction Hnss as [|ns nss Hs IH Hf]; simpl; constructor.
      * assumption.
      * apply Forall_forall. intros q Hq.
        apply in_map_iff in Hq. destruct Hq as [ns' [<- Hns']].
        rewrite Forall_forall in Hf. right. simpl. split; auto.
    + assumption.
    + intros p q Hp Hq.
      apply in_map_iff in Hp. destruct Hp as [ns [<- _]].
      destruct q as [ew' ns']. apply in_prod_iff in Hq. destruct Hq as [Hew' _].
      rewrite Forall_forall in Hf. left. simpl. auto.
Qed.

Lemma coarse_grid_row_major : StronglySorted row_major_lt coarse_grid.
Proof.
  apply list_prod_row_major; apply arange_sorted; lia.
Qed.

Lemma coarse_grid_bounds (p : Z * Z) :
  In p coarse_grid -> (-90 <= fst p <= 90 /\ -90 <= snd p <= 90)%Z.
Proof.
  destruct p as [ew ns]. unfold coarse_grid. rewrite in_prod_iff.
  intros [Hew Hns].
  apply arange_In in Hew; [|lia]. apply arange_In in Hns; [|lia]. simpl. lia.
Qed.

Example coarse_angles_values :
  coarse_angles
  = [-90; -85; -80; -75; -70; -65; -60; -55; -50; -45; -40; -35; -30; -25;
     -20; -15; -10; -5; 0; 5; 10; 15; 20; 25; 30; 35; 40; 45; 50; 55; 60; 65;
     70; 75; 80; 85; 90]%Z.
Proof. reflexivity. Qed.

Example fine_angles_values :
  fine_angles 0 = [-5; -4; -3; -2; -1; 0; 1; 2; 3; 4; 5]%Z
  /\ fine_angles 90 = [85; 86; 87; 88; 89; 90]%Z
  /\ fine_angles (-90) = [-90; -89; -88; -87; -86; -85]%Z.
Proof. repeat split. Qed.

(** ** The search loops *)

Section Search.

Variable vectors_df : list SunVector.
Variable panel_efficiency_decimal : R.

Local Abbreviation total := (orientation_total vectors_df panel_efficiency_decimal).
Local Abbreviation step := (visit vectors_df panel_efficiency_decimal).

Lemma fold_left_pairs (ew : Z) (nss : list Z) (b : best) :
  fold_left
    (fun b ns => try_orientation vectors_df panel_efficiency_decimal b ew ns)
    nss b
  = fold_left step (map (pair ew) nss) b.
Proof. revert b. induction nss as [|ns nss IH]; intros b; simpl; auto. Qed.

(** The nested loops visit [list_prod ew_angles ns_angles] from left to
    right. *)
Lemma grid_search_row_major (ews nss : list Z) (b : best) :
  grid_search vectors_df panel_efficiency_decimal ews nss b
  = fold_left step (list_prod ews nss) b.
Proof.
  unfold grid_search. revert b.
  induction ews as [|ew ews IH]; intros b; simpl; [reflexivity|].
  rewrite fold_left_app, <- fold_left_pairs. apply IH.
Qed.

Lemma step_keep (b : best) (o : Z * Z) :
  total o <= best_energy b -> step b o = b.
Proof.
  intros H. unfold visit, try_orientation.
  rewrite <- surjective_pairing.
  destruct (Rlt_dec (best_energy b) (total o)); [lra | reflexivity].
Qed.

Lemma step_take (b : best) (o : Z * Z) :
  best_energy b < total o -> step b o = mkBest (total o) (fst o) (snd o).
Proof.
  intros H. unfold visit, try_orientation.
  rewrite <- surjective_pairing.
  destruct (Rlt_dec (best_energy b) (total o)); [reflexivity | lra].
Qed.

Lemma scan_keep (l : list (Z * Z)) (b : best) :
  (forall o, In o l -> total o <= best_energy b) -> fold_left step l b = b.
Proof.
  induction l as [|o l IH]; intros H; simpl; [reflexivity|].
  rewrite step_keep by (apply H; now left).
  apply IH. intros; apply H; now right.
Qed.

Lemma scan_below (l : list (Z * Z)) (b : best) (t : R) :
  best_energy b < t -> (forall o, In o l -> total o < t) ->
  best_energy (fold_left step l b) < t.
Proof.
  revert b. induction l as [|o l IH]; intros b Hb H; simpl; [assumption|].
  apply IH; [|intros; apply H; now right].
  destruct (Rlt_dec (best_energy b) (total o)) as [Hlt | Hge].
  - rewrite step_take by assumption. simpl. apply H. now left.
  - rewrite step_keep by lra. assumption.
Qed.

(** The scan of a list keeps the first element that reaches the maximum,
    when that maximum exceeds the running best it started from. *)
Lemma scan_first_maximum (pre post : list (Z * Z)) (o : Z * Z) (b : best) :
  best_energy b < total o ->
  (forall p, In p pre -> total p < total o) ->
  (forall q, In q post -> total q <= total o) ->
  fold_left step (pre ++ o :: post) b = mkBest (total o) (fst o) (snd o).
Proof.
  intros Hb Hpre Hpost. rewrite fold_left_app. simpl.
  rewrite step_take by (apply scan_below; assumption).
  apply scan_keep. simpl. assumption.
Qed.

(** When no orientation of either grid has a positive total, the variables
    keep their initial values. *)
Lemma search_without_positive_total :
  (forall o, In o coarse_grid -> total o <= 0) ->
  (forall o, In o (fine_grid (0, 0)%Z) -> total o <= 0) ->
  search_state vectors_df panel_efficiency_decimal = mkBest 0 0 0.
Proof.
  intros Hcoarse Hfine.
  assert (Hc : coarse_search vectors_df panel_efficiency_decimal = mkBest 0 0 0).
  { unfold coarse_search. rewrite grid_search_row_major.
    apply scan_keep. exact Hcoarse. }
  unfold search_state. rewrite Hc. cbn [best_ew_tilt best_ns_tilt].
  rewrite grid_search_row_major. apply scan_keep. exact Hfine.
Qed.

(** On a grid of ascending angles that holds an orientation of total above
    the running best, the loops end on the first orientation, in row-major
    order, that reaches the maximum of the grid. *)
Lemma grid_first_maximum (ews nss : list Z) (b : best) (o : Z * Z) :
  StronglySorted Z.lt ews -> StronglySorted Z.lt nss ->
  In o (list_prod ews nss) ->
  best_energy b < total o ->
  (forall p, In p (list_prod ews nss) -> total p <= total o) ->
  (forall p, In p (list_prod ews nss) -> row_major_lt p o ->
             total p < total o) ->
  grid_search vectors_df panel_efficiency_decimal ews nss b
  = mkBest (total o) (fst o) (snd o).
Proof.
  intros Hews Hnss Hin Hb Hmax Hfirst.
  rewrite grid_search_row_major.
  destruct (in_split _ _ Hin) as [pre [post Hsplit]].
  pose proof (list_prod_row_major ews nss Hews Hnss) as Hsorted.
  rewrite Hsplit in Hsorted.
  apply StronglySorted_before in Hsorted. destruct Hsorted as [Hbefore _].
  rewrite Hsplit. apply scan_first_maximum.
  - assumption.
  - intros p Hp. apply Hfirst; [|auto].
    rewrite Hsplit. apply in_or_app. now left.
  - intros q Hq. apply Hmax.
    rewrite Hsplit. apply in_or_app. right. now right.
Qed.

Lemma coarse_first_maximum (o : Z * Z) :
  In o coarse_grid ->
  0 < total o ->
  (forall p, In p coarse_grid -> total p <= total o) ->
  (forall p, In p coarse_grid -> row_major_lt p o -> total p < total o) ->
  coarse_search vectors_df panel_efficiency_decimal
  = mkBest (total o) (fst o) (snd o).
Proof.
  intros Hin Hpos Hmax Hfirst. unfold coarse_search.
  apply grid_first_maximum; try assumption; apply arange_sorted; lia.
Qed.

(** When the first coarse orientation that reaches the coarse maximum has a
    positive total, the coarse loops end on it; when no orientation of the
    fine window around it has a larger total, so do the fine loops. *)
Lemma search_first_maximum (o : Z * Z) :
  In o coarse_grid ->
  0 < total o ->
  (forall p, In p coarse_grid -> total p <= total o) ->
  (forall p, In p coarse_grid -> row_major_lt p o -> total p < total o) ->
  (forall p, In p (fine_grid o) -> total p <= total o) ->
  search_state vectors_df panel_efficiency_decimal
  = mkBest (total o) (fst o) (snd o).
Proof.
  intros Hin Hpos Hmax Hfirst Hfine.
  unfold search_state.
  rewrite (coarse_first_maximum o Hin Hpos Hmax Hfirst).
  cbn [best_ew_tilt best_ns_tilt].
  rewrite grid_search_row_major.
  apply scan_keep. cbn [best_energy]. exact Hfine.
Qed.

(** When the fine window around the coarse winner holds a larger total, the
    fine loops end on the first orientation of the window that reaches its
    maximum. *)
Lemma search_fine_maximum (c o : Z * Z) :
  In c coarse_grid ->
  0 < total c ->
  (forall p, In p coarse_grid -> total p <= total c) ->
  (forall p, In p coarse_grid -> row_major_lt p c -> total p < total c) ->
  In o (fine_grid c) ->
  total c < total o ->
  (forall p, In p (fine_grid c) -> total p <= total o) ->
  (forall p, In p (fine_grid c) -> row_major_lt p o -> total p < total o) ->
  search_state vectors_df panel_efficiency_decimal
  = mkBest (total o) (fst o) (snd o).
Proof.
  intros Hin Hpos Hmax Hfirst Hino Hlt Hfmax Hffirst.
  unfold search_state.
  rewrite (coarse_first_maximum c Hin Hpos Hmax Hfirst).
  cbn [best_ew_tilt best_ns_tilt].
  apply grid_first_maximum; try assumption; apply arange_sorted; lia.
Qed.

End Search.

(** ** find_best_fixed_position on an empty frame *)

Lemma empty_total (efficiency : R) (ew ns : option R) :
  total_energy (calculate_energy [] efficiency ew ns) = 0.
Proof. destruct ew, ns; reflexivity. Qed.

(** C7.  On an empty sun-vector frame every orientation, of the grids or
    not, has total 0; the search returns (it is a total function), its
    variables end as they started, best energy 0 at tilts (0, 0), and the
    result is (0, 0). *)
Theorem empty_input_search (panel_efficiency_decimal : R) :
  (forall ew ns,
      total_energy (calculate_energy [] panel_efficiency_decimal ew ns) = 0)
  /\ (forall o, orientation_total [] panel_efficiency_decimal o = 0)
  /\ search_state [] panel_efficiency_decimal = mkBest 0 0 0
  /\ find_best_fixed_position [] panel_efficiency_decimal = (0, 0)%Z.
Proof.
  assert (H0 : forall o, orientation_total [] panel_efficiency_decimal o = 0)
    by (intros; apply empty_total).
  assert (Hs : search_state [] panel_efficiency_decimal = mkBest 0 0 0).
  { apply search_without_positive_total; intros o _; rewrite H0; lra. }
  split; [|split; [|split]].
  - intros. apply empty_total.
  - exact H0.
  - exact Hs.
  - unfold find_best_fixed_position. now rewrite Hs.
Qed.

(** ** Ties *)

(** The claim of C4 fails on the source when the equal maximal totals are 0.
    On the empty frame, (-90,-90) and (-90,-85) are distinct orientations of
    the coarse grid with equal totals, no orientation has a larger total, and
    (-90,-90) is the first of the grid in row-major order; the search returns
    (0,0). *)
Lemma tie_at_zero_returns_initial :
  In (-90, -90)%Z coarse_grid
  /\ In (-90, -85)%Z coarse_grid
  /\ row_major_lt (-90, -90)%Z (-90, -85)%Z
  /\ orientation_total [] (1 / 5) (-90, -90)%Z
     = orientation_total [] (1 / 5) (-90, -85)%Z
  /\ (forall p, orientation_total [] (1 / 5) p
                <= orientation_total [] (1 / 5) (-90, -90)%Z)
  /\ (forall p, In p coarse_grid -> ~ row_major_lt p (-90, -90)%Z)
  /\ find_best_fixed_position [] (1 / 5) = (0, 0)%Z
  /\ find_best_fixed_position [] (1 / 5) <> (-90, -90)%Z.
Proof.
  assert (H0 : forall o, orientation_total [] (1 / 5) o = 0)
    by (intros; apply empty_total).
  assert (Hr : find_best_fixed_position [] (1 / 5) = (0, 0)%Z).
  { unfold find_best_fixed_position.
    rewrite search_without_positive_total; [reflexivity | |];
      intros o _; rewrite H0; lra. }
  split; [|split; [|split; [|split; [|split; [|split; [|split]]]]]].
  - apply in_prod_iff. split; vm_compute; tauto.
  - apply in_prod_iff. split; vm_compute; tauto.
  - right. simpl. lia.
  - now rewrite !H0.
  - intros p. rewrite !H0. lra.
  - intros p Hp [Hlt | [_ Hlt]]; apply coarse_grid_bounds in Hp; simpl in *; lia.
  - exact Hr.
  - rewrite Hr. intros H. discriminate H.
Qed.

(** C4, as the source has it.  The running best starts at total 0 and tilts
    (0,0), an orientation replaces it only when its total is strictly larger,
    and the coarse grid is visited in row-major order.  So when the maximal
    coarse total is strictly positive and no orientation of the fine window
    around its first holder has a larger total, the search returns the first
    orientation, in row-major order, that holds this maximum: an orientation
    met later with an equal total does not replace it. *)
Theorem first_maximal_orientation_wins
    (vectors_df : list SunVector) (panel_efficiency_decimal : R) (o : Z * Z)
    (Hin : In o coarse_grid)
    (Hpos : 0 < orientation_total vectors_df panel_efficiency_decimal o)
    (Hmax : forall p, In p coarse_grid ->
              orientation_total vectors_df panel_efficiency_decimal p
              <= orientation_total vectors_df panel_efficiency_decimal o)
    (Hfirst : forall p, In p coarse_grid -> row_major_lt p o ->
              orientation_total vectors_df panel_efficiency_decimal p
              < orientation_total vectors_df panel_efficiency_decimal o)
    (Hfine : forall p, In p (fine_grid o) ->
              orientation_total vectors_df panel_efficiency_decimal p
              <= orientation_total vectors_df panel_efficiency_decimal o) :
  find_best_fixed_position vectors_df panel_efficiency_decimal = o
  /\ best_energy (search_state vectors_df panel_efficiency_decimal)
     = orientation_total vectors_df panel_efficiency_decimal o
  /\ best_energy (coarse_search vectors_df panel_efficiency_decimal)
     = orientation_total vectors_df panel_efficiency_decimal o
  /\ (forall b ew ns,
        orientation_total vectors_df panel_efficiency_decimal (ew, ns)
        <= best_energy b ->
        try_orientation vectors_df panel_efficiency_decimal b ew ns = b)
  /\ (forall ews nss b,
        grid_search vectors_df panel_efficiency_decimal ews nss b
        = fold_left (visit vectors_df panel_efficiency_decimal)
                    (list_prod ews nss) b)
  /\ StronglySorted row_major_lt coarse_grid.
Proof.
  pose proof (search_first_maximum vectors_df panel_efficiency_decimal o
                Hin Hpos Hmax Hfirst Hfine) as Hs.
  split; [|split; [|split; [|split; [|split]]]].
  - unfold find_best_fixed_position. rewrite Hs. simpl.
    symmetry. apply surjective_pairing.
  - now rewrite Hs.
  - now rewrite (coarse_first_maximum vectors_df panel_efficiency_decimal o
                   Hin Hpos Hmax Hfirst).
  - intros b ew ns H.
    apply (step_keep vectors_df panel_efficiency_decimal b (ew, ns) H).
  - intros. apply grid_search_row_major.
  - exact coarse_grid_row_major.
Qed.

(** The totals of the horizon pair. *)
Lemma horizon_pair_total (efficiency : R) (o : Z * Z) :
  orientation_total horizon_pair efficiency o
  = (clip (- (cos (radians (IZR (fst o))) * sin (radians (IZR (snd o))))) 0 1
     + clip (cos (radians (IZR (fst o))) * sin (radians (IZR (snd o)))) 0 1)
    * efficiency / 6.
Proof.
  unfold orientation_total.
  change (calculate_energy horizon_pair efficiency
            (Some (IZR (fst o))) (Some (IZR (snd o))))
    with (integrate horizon_pair efficiency (Fixed (IZR (fst o)) (IZR (snd o)))).
  rewrite total_energy_rows. unfold horizon_pair.
  cbn [map series_sum fold_right sample_energy enerji_wh incidence_cosine].
  rewrite get_panel_normal_components.
  unfold horizon_north, horizon_south, xyz, dot3.
  cbn [sv_x sv_y sv_z sv_dni].
  set (e := radians (IZR (fst o))). set (n := radians (IZR (snd o))).
  replace (0 * sin e + 1 * - (cos e * sin n) + 0 * (cos e * cos n))
    with (- (cos e * sin n)) by ring.
  replace (0 * sin e + -1 * - (cos e * sin n) + 0 * (cos e * cos n))
    with (cos e * sin n) by ring.
  field.
Qed.

Lemma clip_opposite_sum (s : R) : 0 <= clip (- s) 0 1 + clip s 0 1 <= 1.
Proof.
  destruct (Rle_dec s 0) as [Hs | Hs].
  - rewrite (clip_below s) by assumption.
    pose proof (clip_unit_interval (- s)). lra.
  - rewrite (clip_below (- s)) by lra.
    pose proof (clip_unit_interval s). lra.
Qed.

Lemma clip_opposite_sum_lt (s : R) :
  -1 < s < 1 -> clip (- s) 0 1 + clip s 0 1 < 1.
Proof.
  intros H. unfold clip, Rmin, Rmax.
  destruct (Rle_dec (- s) 0); destruct (Rle_dec s 0);
    repeat match goal with
           | |- context [Rle_dec ?a ?b] => destruct (Rle_dec a b)
           end; lra.
Qed.

Lemma horizon_pair_total_le (efficiency : R) (p : Z * Z) :
  0 <= efficiency -> orientation_total horizon_pair efficiency p <= efficiency / 6.
Proof.
  intros He. rewrite horizon_pair_total.
  set (s := cos (radians (IZR (fst p))) * sin (radians (IZR (snd p)))).
  pose proof (clip_opposite_sum s) as [_ H].
  assert (H' : (clip (- s) 0 1 + clip s 0 1) * efficiency <= 1 * efficiency)
    by (apply Rmult_le_compat_r; assumption).
  lra.
Qed.

Lemma horizon_pair_total_south (efficiency : R) :
  orientation_total horizon_pair efficiency (0, -90)%Z = efficiency / 6.
Proof.
  rewrite horizon_pair_total. cbn [fst snd].
  replace (radians (-90)) with (- (PI / 2)) by (unfold radians; lra).
  rewrite radians_0, cos_0, sin_neg, sin_PI2.
  rewrite clip_above by lra. rewrite clip_below by lra. lra.
Qed.

Lemma horizon_pair_total_north (efficiency : R) :
  orientation_total horizon_pair efficiency (0, 90)%Z = efficiency / 6.
Proof.
  rewrite horizon_pair_total. cbn [fst snd].
  rewrite radians_0, radians_90, cos_0, sin_PI2.
  rewrite clip_below by lra. rewrite clip_above by lra. lra.
Qed.

(** A panel tilted towards the west by a whole number of degrees faces the
    meridian under a cosine below 1. *)
Lemma cos_west_tilt (ew : Z) :
  (-90 <= ew < 0)%Z -> 0 <= cos (radians (IZR ew)) < 1.
Proof.
  intros [Hlo Hhi].
  assert (H1 : -90 <= IZR ew) by (apply (IZR_le (-90)); assumption).
  assert (H2 : IZR ew <= -1) by (apply (IZR_le ew (-1)); lia).
  pose proof PI_RGT_0 as Hpi.
  assert (Hr : - (PI / 2) <= radians (IZR ew) < 0) by (unfold radians; nra).
  split.
  - apply cos_ge_0; lra.
  - rewrite <- cos_neg, <- cos_0. apply cos_decreasing_1; lra.
Qed.

Lemma horizon_pair_total_west (efficiency : R) (p : Z * Z) :
  0 < efficiency -> (-90 <= fst p < 0)%Z ->
  orientation_total horizon_pair efficiency p < efficiency / 6.
Proof.
  intros He Hp. rewrite horizon_pair_total.
  pose proof (cos_west_tilt _ Hp) as Hc.
  pose proof (SIN_bound (radians (IZR (snd p)))) as Hs.
  set (c := cos (radians (IZR (fst p)))) in *.
  set (s := sin (radians (IZR (snd p)))) in *.
  assert (Hcs : -1 < c * s < 1) by nra.
  pose proof (clip_opposite_sum_lt _ Hcs) as H.
  assert (H' : (clip (- (c * s)) 0 1 + clip (c * s) 0 1) * efficiency
               < 1 * efficiency)
    by (apply Rmult_lt_compat_r; assumption).
  lra.
Qed.

(** On the horizon pair the orientations (0,-90) and (0,90) tie at the
    maximum, which the 18 rows of the grid visited before them do not reach;
    the search returns (0,-90), the one it meets first. *)
Lemma first_maximal_orientation_wins_witness :
  In (0, -90)%Z coarse_grid
  /\ In (0, 90)%Z coarse_grid
  /\ row_major_lt (0, -90)%Z (0, 90)%Z
  /\ 0 < orientation_total horizon_pair (1 / 5) (0, -90)%Z
  /\ orientation_total horizon_pair (1 / 5) (0, 90)%Z
     = orientation_total horizon_pair (1 / 5) (0, -90)%Z
  /\ find_best_fixed_position horizon_pair (1 / 5) = (0, -90)%Z.
Proof.
  assert (Hin : In (0, -90)%Z coarse_grid)
    by (apply in_prod_iff; split; vm_compute; tauto).
  assert (Hin' : In (0, 90)%Z coarse_grid)
    by (apply in_prod_iff; split; vm_compute; tauto).
  assert (Hpos : 0 < orientation_total horizon_pair (1 / 5) (0, -90)%Z)
    by (rewrite horizon_pair_total_south; lra).
  assert (Hle : forall p,
             orientation_total horizon_pair (1 / 5) p
             <= orientation_total horizon_pair (1 / 5) (0, -90)%Z)
    by (intros p; rewrite horizon_pair_total_south;
        apply horizon_pair_total_le; lra).
  assert (Hfirst : forall p, In p coarse_grid -> row_major_lt p (0, -90)%Z ->
             orientation_total horizon_pair (1 / 5) p
             < orientation_total horizon_pair (1 / 5) (0, -90)%Z).
  { intros p Hp Hlt. apply coarse_grid_bounds in Hp.
    rewrite horizon_pair_total_south.
    apply horizon_pair_total_west; [lra|].
    destruct Hlt as [Hlt | [_ Hlt]]; simpl in Hlt; lia. }
  split; [exact Hin|]. split; [exact Hin'|].
  split; [right; simpl; lia|]. split; [exact Hpos|].
  split; [now rewrite horizon_pair_total_south, horizon_pair_total_north|].
  exact (proj1 (first_maximal_orientation_wins horizon_pair (1 / 5)
                  (0, -90)%Z Hin Hpos
                  (fun p _ => Hle p) Hfirst (fun p _ => Hle p))).
Defined.

(** ** The relative efficiency against tracking *)

Lemma np_divide_nonzero (a b : R) : b <> 0 -> np_divide a b = Finite (a / b).
Proof.
  intros H. unfold np_divide. destruct (Req_dec_T b 0); [contradiction|trivial].
Qed.

Lemma np_divide_zero (a : R) :
  np_divide a 0
  = if Req_dec_T a 0 then NaN else if Rlt_dec 0 a then PosInf else NegInf.
Proof.
  unfold np_divide. destruct (Req_dec_T 0 0) as [_ | H]; [trivial | now elim H].
Qed.

Lemma relative_efficiency_zero_zero : relative_efficiency 0 0 = NaN.
Proof.
  unfold relative_efficiency. rewrite np_divide_zero.
  destruct (Req_dec_T 0 0) as [_ | H]; [reflexivity | now elim H].
Qed.

(** The claim of C9 fails on the source: with a tracking total of zero the
    quotient is computed all the same, and the entry of the chart is
    not-a-number; nothing detects the zero divisor. *)
Lemma zero_tracking_total_not_detected :
  series_sum (enerji_wh_izleme monthly_without_daylight) = 0
  /\ efficiency_data monthly_without_daylight = [("En İyi Sabit"%string, NaN)]
  /\ ~ is_finite (relative_efficiency 0 0).
Proof.
  split; [reflexivity|]. split.
  - unfold efficiency_data, monthly_without_daylight.
    cbn [enerji_wh_izleme enerji_wh_sabit_eniyi enerji_wh_ozel_sabit
         series_sum fold_right].
    rewrite relative_efficiency_zero_zero.
    unfold series_equals.
    destruct (list_eq_dec Req_dec_T [] []) as [_ | H];
      [reflexivity | now elim H].
  - rewrite relative_efficiency_zero_zero. simpl. tauto.
Qed.

(** C9, as the source has it.  The first entry of the chart is the quotient
    of the best fixed total by the tracking total, times 100, computed without
    a guard: it is the finite percentage exactly when the tracking total is
    not zero, and with a zero tracking total it is not-a-number or an
    infinity, which the function passes on; no outcome reports a degenerate
    result. *)
Theorem relative_efficiency_unguarded (monthly_data : MonthlyData) :
  let tracking_energy := series_sum (enerji_wh_izleme monthly_data) in
  let optimal_energy := series_sum (enerji_wh_sabit_eniyi monthly_data) in
  hd_error (efficiency_data monthly_data)
    = Some ("En İyi Sabit"%string,
            relative_efficiency optimal_energy tracking_energy)
  /\ (tracking_energy <> 0 ->
      relative_efficiency optimal_energy tracking_energy
        = Finite (optimal_energy / tracking_energy * 100))
  /\ (tracking_energy = 0 ->
      relative_efficiency optimal_energy tracking_energy
        = if Req_dec_T optimal_energy 0 then NaN
          else if Rlt_dec 0 optimal_energy then PosInf else NegInf)
  /\ (is_finite (relative_efficiency optimal_energy tracking_energy)
      <-> tracking_energy <> 0).
Proof.
  intros tracking_energy optimal_energy.
  split; [|split; [|split]].
  - unfold efficiency_data. fold tracking_energy optimal_energy.
    destruct (enerji_wh_ozel_sabit monthly_data) as [ozel|]; [|reflexivity].
    destruct (negb (series_equals ozel (enerji_wh_sabit_eniyi monthly_data)));
      reflexivity.
  - intros H. unfold relative_efficiency. now rewrite np_divide_nonzero.
  - intros H. unfold relative_efficiency. rewrite H, np_divide_zero.
    destruct (Req_dec_T optimal_energy 0); [reflexivity|].
    destruct (Rlt_dec 0 optimal_energy); reflexivity.
  - unfold relative_efficiency, np_divide.
    destruct (Req_dec_T tracking_energy 0) as [H0 | Hn].
    + split; [|intros H; contradiction].
      destruct (Req_dec_T optimal_energy 0); [simpl; tauto|].
      destruct (Rlt_dec 0 optimal_energy); simpl; tauto.
    + simpl. tauto.
Qed.

(** ** The fine loops can leave a tied coarse winner *)

Lemma radians_minus (d d' : R) : radians (d - d') = radians d - radians d'.
Proof. unfold radians. ring. Qed.

Lemma radians_opp (d : R) : radians (- d) = - radians d.
Proof. unfold radians. ring. Qed.

Lemma cos_radians_le (d d0 : R) :
  0 <= d0 -> d0 <= d \/ d <= - d0 -> -180 <= d <= 180 ->
  cos (radians d) <= cos (radians d0).
Proof.
  intros H0 Hd Hr. pose proof PI_RGT_0 as Hpi.
  destruct Hd as [Hd | Hd].
  - apply cos_decr_1; unfold radians; nra.
  - rewrite <- cos_neg, <- radians_opp.
    apply cos_decr_1; unfold radians; nra.
Qed.

Lemma cos_radians_lt (d d0 : R) :
  0 <= d0 -> d0 < d \/ d < - d0 -> -180 <= d <= 180 ->
  cos (radians d) < cos (radians d0).
Proof.
  intros H0 Hd Hr. pose proof PI_RGT_0 as Hpi.
  destruct Hd as [Hd | Hd].
  - apply cos_decreasing_1; unfold radians; nra.
  - rewrite <- cos_neg, <- radians_opp.
    apply cos_decreasing_1; unfold radians; nra.
Qed.

Lemma cos_radians_pos (d : R) : -90 < d < 90 -> 0 < cos (radians d).
Proof.
  intros H. pose proof PI_RGT_0 as Hpi. apply cos_gt_0; unfold radians; nra.
Qed.

Lemma cos_radians_nonneg (d : R) : -90 <= d <= 90 -> 0 <= cos (radians d).
Proof.
  intros H. pose proof PI_RGT_0 as Hpi. apply cos_ge_0; unfold radians; nra.
Qed.

Lemma clip_id (v : R) : 0 <= v <= 1 -> clip v 0 1 = v.
Proof.
  intros H. unfold clip, Rmin, Rmax.
  destruct (Rle_dec v 0); destruct (Rle_dec _ 1); lra.
Qed.

Lemma clip_le_bound (v bound : R) :
  v <= bound -> 0 <= bound -> clip v 0 1 <= bound.
Proof.
  intros H H0. unfold clip, Rmin, Rmax.
  destruct (Rle_dec v 0); destruct (Rle_dec _ 1); lra.
Qed.

Lemma clip_lt_bound (v bound : R) :
  v < bound -> 0 < bound -> clip v 0 1 < bound.
Proof.
  intros H H0. unfold clip, Rmin, Rmax.
  destruct (Rle_dec v 0); destruct (Rle_dec _ 1); lra.
Qed.

Example tilted_sun_projection : sun_vector tilted_sample = tilted_sun.
Proof.
  unfold sun_vector, tilted_sample, tilted_sun.
  cbn [apparent_zenith azimuth timestamp dni].
  rewrite radians_90, sin_PI2, cos_PI2. f_equal; ring.
Qed.

(** The dot product of the tilted sun with the normal of an orientation. *)
Lemma tilted_sun_total (efficiency : R) (o : Z * Z) :
  orientation_total [tilted_sun] efficiency o
  = clip (sin (radians (5 / 2)) * sin (radians (IZR (fst o)))
          + cos (radians (5 / 2))
            * (cos (radians (IZR (fst o))) * cos (radians (IZR (snd o)))))
         0 1
    * efficiency / 6.
Proof.
  unfold orientation_total.
  change (calculate_energy [tilted_sun] efficiency
            (Some (IZR (fst o))) (Some (IZR (snd o))))
    with (integrate [tilted_sun] efficiency (Fixed (IZR (fst o)) (IZR (snd o)))).
  rewrite total_energy_rows.
  cbn [map series_sum fold_right sample_energy enerji_wh incidence_cosine].
  rewrite get_panel_normal_components.
  unfold tilted_sun, xyz, dot3. cbn [sv_x sv_y sv_z sv_dni].
  set (a := radians (5 / 2)).
  set (e := radians (IZR (fst o))). set (n := radians (IZR (snd o))).
  replace (sin a * sin e + 0 * - (cos e * sin n) + cos a * (cos e * cos n))
    with (sin a * sin e + cos a * (cos e * cos n)) by ring.
  field.
Qed.

(** The dot product is at most the cosine of the east-west distance to the
    sun, and smaller when the panel is tilted north or south. *)
Lemma tilted_dot_le (ew ns : R) :
  -90 <= ew <= 90 ->
  sin (radians (5 / 2)) * sin (radians ew)
  + cos (radians (5 / 2)) * (cos (radians ew) * cos (radians ns))
  <= cos (radians (ew - 5 / 2)).
Proof.
  intros Hew. rewrite radians_minus, cos_minus.
  assert (Ha : 0 <= cos (radians (5 / 2))) by (apply cos_radians_nonneg; lra).
  pose proof (cos_radians_nonneg ew Hew) as He.
  pose proof (COS_bound (radians ns)) as [_ Hn].
  assert (H : 0 <= cos (radians (5 / 2)) * cos (radians ew))
    by (apply Rmult_le_pos; assumption).
  nra.
Qed.

Lemma tilted_dot_lt (ew ns : R) :
  -90 < ew < 90 -> cos (radians ns) < 1 ->
  sin (radians (5 / 2)) * sin (radians ew)
  + cos (radians (5 / 2)) * (cos (radians ew) * cos (radians ns))
  < cos (radians (ew - 5 / 2)).
Proof.
  intros Hew Hn. rewrite radians_minus, cos_minus.
  assert (Ha : 0 < cos (radians (5 / 2))) by (apply cos_radians_pos; lra).
  pose proof (cos_radians_pos ew Hew) as He.
  assert (H : 0 < cos (radians (5 / 2)) * cos (radians ew))
    by (apply Rmult_lt_0_compat; assumption).
  nra.
Qed.

Lemma arange_In_step (start stop step x : Z) :
  In x (arange start stop step) ->
  exists i : nat, x = (start + step * Z.of_nat i)%Z.
Proof.
  unfold arange. intros H. apply in_map_iff in H.
  destruct H as [i [<- _]]. now exists i.
Qed.

Lemma coarse_grid_off_sun (p : Z * Z) :
  In p coarse_grid -> (fst p <= 0 \/ 5 <= fst p)%Z.
Proof.
  destruct p as [ew ns]. unfold coarse_grid. rewrite in_prod_iff.
  intros [Hew _]. apply arange_In_step in Hew. destruct Hew as [i ->].
  cbn [fst]. lia.
Qed.

Lemma fine_grid_bounds (p : Z * Z) :
  In p (fine_grid (0, 0)%Z) -> (-5 <= fst p <= 5 /\ -5 <= snd p <= 5)%Z.
Proof.
  destruct p as [ew ns]. unfold fine_grid. rewrite in_prod_iff.
  intros [Hew Hns]. unfold fine_angles in *.
  apply arange_In in Hew; [|lia]. apply arange_In in Hns; [|lia].
  simpl in *. lia.
Qed.

Section TiltedSun.

Variable efficiency : R.
Hypothesis efficiency_pos : 0 < efficiency.

Local Abbreviation total := (orientation_total [tilted_sun] efficiency).

Lemma tilted_total_le (p : Z * Z) (d0 : R) :
  0 <= d0 <= 90 -> (-90 <= fst p <= 90)%Z ->
  d0 <= IZR (fst p) - 5 / 2 \/ IZR (fst p) - 5 / 2 <= - d0 ->
  total p <= cos (radians d0) * efficiency / 6.
Proof.
  intros Hd0 [Hlo Hhi] Hd. rewrite tilted_sun_total.
  apply (IZR_le (-90)) in Hlo. apply (IZR_le _ 90) in Hhi.
  pose proof (tilted_dot_le (IZR (fst p)) (IZR (snd p)) (conj Hlo Hhi)) as Hdot.
  assert (Hcos : cos (radians (IZR (fst p) - 5 / 2)) <= cos (radians d0))
    by (apply cos_radians_le; lra).
  assert (H0 : 0 <= cos (radians d0)) by (apply cos_radians_nonneg; lra).
  match goal with |- clip ?d 0 1 * _ / 6 <= _ =>
    assert (Hclip : clip d 0 1 <= cos (radians d0))
      by (apply clip_le_bound; lra);
    set (c := clip d 0 1) in *
  end.
  assert (c * efficiency <= cos (radians d0) * efficiency)
    by (apply Rmult_le_compat_r; lra).
  lra.
Qed.

Lemma tilted_total_lt (p : Z * Z) (d0 : R) :
  0 <= d0 < 90 -> (-90 <= fst p <= 90)%Z ->
  d0 < IZR (fst p) - 5 / 2 \/ IZR (fst p) - 5 / 2 < - d0 ->
  total p < cos (radians d0) * efficiency / 6.
Proof.
  intros Hd0 [Hlo Hhi] Hd. rewrite tilted_sun_total.
  apply (IZR_le (-90)) in Hlo. apply (IZR_le _ 90) in Hhi.
  pose proof (tilted_dot_le (IZR (fst p)) (IZR (snd p)) (conj Hlo Hhi)) as Hdot.
  assert (Hcos : cos (radians (IZR (fst p) - 5 / 2)) < cos (radians d0))
    by (apply cos_radians_lt; lra).
  assert (H0 : 0 < cos (radians d0)) by (apply cos_radians_pos; lra).
  match goal with |- clip ?d 0 1 * _ / 6 < _ =>
    assert (Hclip : clip d 0 1 < cos (radians d0))
      by (apply clip_lt_bound; lra);
    set (c := clip d 0 1) in *
  end.
  assert (c * efficiency < cos (radians d0) * efficiency)
    by (apply Rmult_lt_compat_r; lra).
  lra.
Qed.

Lemma tilted_total_row_lt (p : Z * Z) (d0 : R) :
  0 <= d0 < 90 -> (-90 < fst p < 90)%Z -> (-90 <= snd p < 0)%Z ->
  d0 <= IZR (fst p) - 5 / 2 \/ IZR (fst p) - 5 / 2 <= - d0 ->
  total p < cos (radians d0) * efficiency / 6.
Proof.
  intros Hd0 [Hlo Hhi] [Hnlo Hnhi] Hd. rewrite tilted_sun_total.
  apply (IZR_lt (-90)) in Hlo. apply (IZR_lt _ 90) in Hhi.
  apply (IZR_le (-90)) in Hnlo.
  assert (Hn1 : IZR (snd p) <= -1) by (apply (IZR_le _ (-1)); lia).
  assert (Hn : cos (radians (IZR (snd p))) < 1).
  { rewrite <- cos_0, <- radians_0. apply cos_radians_lt; lra. }
  pose proof (tilted_dot_lt (IZR (fst p)) (IZR (snd p)) (conj Hlo Hhi) Hn)
    as Hdot.
  assert (Hcos : cos (radians (IZR (fst p) - 5 / 2)) <= cos (radians d0))
    by (apply cos_radians_le; lra).
  assert (H0 : 0 < cos (radians d0)) by (apply cos_radians_pos; lra).
  match goal with |- clip ?d 0 1 * _ / 6 < _ =>
    assert (Hclip : clip d 0 1 < cos (radians d0))
      by (apply clip_lt_bound; lra);
    set (c := clip d 0 1) in *
  end.
  assert (c * efficiency < cos (radians d0) * efficiency)
    by (apply Rmult_lt_compat_r; lra).
  lra.
Qed.

(** Without north-south tilt the total is the cosine of the east-west
    distance to the sun. *)
Lemma tilted_total_flat (ew : Z) :
  (-85 <= ew <= 90)%Z ->
  total (ew, 0%Z) = cos (radians (IZR ew - 5 / 2)) * efficiency / 6.
Proof.
  intros [Hlo Hhi]. rewrite tilted_sun_total. cbn [fst snd].
  apply (IZR_le (-85)) in Hlo. apply (IZR_le _ 90) in Hhi.
  rewrite radians_0, cos_0, Rmult_1_r.
  replace (sin (radians (5 / 2)) * sin (radians (IZR ew))
           + cos (radians (5 / 2)) * cos (radians (IZR ew)))
    with (cos (radians (IZR ew - 5 / 2)))
    by (rewrite radians_minus, cos_minus; ring).
  rewrite clip_id; [reflexivity|].
  split; [apply cos_radians_nonneg; lra | apply COS_bound].
Qed.

Lemma tilted_total_0 : total (0, 0)%Z = cos (radians (5 / 2)) * efficiency / 6.
Proof.
  rewrite tilted_total_flat by lia.
  replace (0 - 5 / 2) with (- (5 / 2)) by lra.
  now rewrite radians_opp, cos_neg.
Qed.

Lemma tilted_total_5 : total (5, 0)%Z = cos (radians (5 / 2)) * efficiency / 6.
Proof.
  rewrite tilted_total_flat by lia.
  now replace (5 - 5 / 2) with (5 / 2) by lra.
Qed.

Lemma tilted_total_2 : total (2, 0)%Z = cos (radians (1 / 2)) * efficiency / 6.
Proof.
  rewrite tilted_total_flat by lia.
  replace (2 - 5 / 2) with (- (1 / 2)) by lra.
  now rewrite radians_opp, cos_neg.
Qed.

(** The coarse loops end on (0,0), which ties with (5,0); the fine loops then
    move to (2,0). *)
Lemma tilted_search : search_state [tilted_sun] efficiency
                      = mkBest (total (2, 0)%Z) 2 0.
Proof.
  pose proof efficiency_pos as He.
  assert (Hc25 : 0 < cos (radians (5 / 2))) by (apply cos_radians_pos; lra).
  assert (Hlt : cos (radians (5 / 2)) < cos (radians (1 / 2)))
    by (apply cos_radians_lt; lra).
  apply (search_fine_maximum [tilted_sun] efficiency (0, 0)%Z (2, 0)%Z).
  - apply in_prod_iff; split; vm_compute; tauto.
  - rewrite tilted_total_0. nra.
  - intros p Hp. rewrite tilted_total_0.
    pose proof (coarse_grid_off_sun p Hp) as Hoff.
    apply coarse_grid_bounds in Hp.
    apply tilted_total_le; [lra | lia |].
    destruct Hoff as [H | H]; [right | left].
    + apply (IZR_le _ 0) in H. lra.
    + apply (IZR_le 5) in H. lra.
  - intros p Hp Hbefore. rewrite tilted_total_0.
    pose proof (coarse_grid_off_sun p Hp) as Hoff.
    apply coarse_grid_bounds in Hp.
    destruct Hbefore as [H | [H H']]; cbn [fst snd] in H.
    + apply tilted_total_lt; [lra | lia |]. right.
      assert (H5 : (fst p <= -1)%Z) by lia.
      apply (IZR_le _ (-1)) in H5. lra.
    + cbn [fst snd] in H'. apply tilted_total_row_lt; [lra | lia | lia |].
      right. rewrite H. lra.
  - apply in_prod_iff; split; vm_compute; tauto.
  - rewrite tilted_total_0, tilted_total_2.
    assert (cos (radians (5 / 2)) * efficiency
            < cos (radians (1 / 2)) * efficiency)
      by (apply Rmult_lt_compat_r; assumption).
    lra.
  - intros p Hp. rewrite tilted_total_2. apply fine_grid_bounds in Hp.
    apply tilted_total_le; [lra | lia |].
    assert (Hint : (fst p <= 2 \/ 3 <= fst p)%Z) by lia.
    destruct Hint as [H | H]; [right | left].
    + apply (IZR_le _ 2) in H. lra.
    + apply (IZR_le 3) in H. lra.
  - intros p Hp Hbefore. rewrite tilted_total_2. apply fine_grid_bounds in Hp.
    destruct Hbefore as [H | [H H']]; cbn [fst snd] in H.
    + apply tilted_total_lt; [lra | lia |]. right.
      assert (H1 : (fst p <= 1)%Z) by lia.
      apply (IZR_le _ 1) in H1. lra.
    + cbn [fst snd] in H'. apply tilted_total_row_lt; [lra | lia | lia |].
      right. rewrite H. lra.
Qed.

End TiltedSun.

(** Two distinct coarse orientations, (0,0) and (5,0), hold the maximal coarse
    total, a positive one, and (0,0) is the first of the grid to reach it;
    the search returns neither of them but (2,0), which the fine loops find
    with a strictly larger total. *)
Lemma fine_loops_leave_tied_coarse_winner :
  orientation_total [tilted_sun] (1 / 5) (0, 0)%Z
    = orientation_total [tilted_sun] (1 / 5) (5, 0)%Z
  /\ 0 < orientation_total [tilted_sun] (1 / 5) (0, 0)%Z
  /\ coarse_search [tilted_sun] (1 / 5)
     = mkBest (orientation_total [tilted_sun] (1 / 5) (0, 0)%Z) 0 0
  /\ orientation_total [tilted_sun] (1 / 5) (0, 0)%Z
     < orientation_total [tilted_sun] (1 / 5) (2, 0)%Z
  /\ find_best_fixed_position [tilted_sun] (1 / 5) = (2, 0)%Z.
Proof.
  assert (He : 0 < 1 / 5) by lra.
  assert (Hc25 : 0 < cos (radians (5 / 2))) by (apply cos_radians_pos; lra).
  assert (Hlt : cos (radians (5 / 2)) < cos (radians (1 / 2)))
    by (apply cos_radians_lt; lra).
  split; [|split; [|split; [|split]]].
  - now rewrite tilted_total_0, tilted_total_5.
  - rewrite tilted_total_0. nra.
  - apply (coarse_first_maximum [tilted_sun] (1 / 5) (0, 0)%Z).
    + apply in_prod_iff; split; vm_compute; tauto.
    + rewrite tilted_total_0. nra.
    + intros p Hp. rewrite tilted_total_0.
      pose proof (coarse_grid_off_sun p Hp) as Hoff.
      apply coarse_grid_bounds in Hp.
      apply (tilted_total_le _ He); [lra | lia |].
      destruct Hoff as [H | H]; [right | left].
      * apply (IZR_le _ 0) in H. lra.
      * apply (IZR_le 5) in H. lra.
    + intros p Hp Hbefore. rewrite tilted_total_0.
      apply coarse_grid_bounds in Hp.
      destruct Hbefore as [H | [H H']]; cbn [fst snd] in H.
      * apply (tilted_total_lt _ He); [lra | lia |]. right.
        assert (H5 : (fst p <= -1)%Z) by lia.
        apply (IZR_le _ (-1)) in H5. lra.
      * cbn [fst snd] in H'.
        apply (tilted_total_row_lt _ He); [lra | lia | lia |].
        right. rewrite H. lra.
  - rewrite tilted_total_0, tilted_total_2. nra.
  - unfold find_best_fixed_position. now rewrite (tilted_search _ He).
Qed.

(** * Further properties of the search *)

Section SearchInvariants.

Variable vectors_df : list SunVector.
Variable panel_efficiency_decimal : R.

Local Abbreviation total := (orientation_total vectors_df panel_efficiency_decimal).
Local Abbreviation step := (visit vectors_df panel_efficiency_decimal).

(** A scan ends on the running best it started from or on an orientation of
    the list whose total exceeds it. *)
Lemma scan_result (l : list (Z * Z)) (b : best) :
  fold_left step l b = b
  \/ exists o, In o l /\ best_energy b < total o
               /\ fold_left step l b = mkBest (total o) (fst o) (snd o).
Proof.
  revert b. induction l as [|o l IH]; intros b; simpl; [now left|].
  destruct (Rlt_dec (best_energy b) (total o)) as [Hlt | Hge].
  - rewrite step_take by assumption.
    destruct (IH (mkBest (total o) (fst o) (snd o))) as [Heq | [o' [Hin [Hb Heq]]]].
    + right. exists o. split; [now left|]. split; assumption.
    + right. exists o'. split; [now right|]. simpl in Hb. split; [lra | assumption].
  - rewrite step_keep by lra.
    destruct (IH b) as [Heq | [o' [Hin [Hb Heq]]]]; [now left|].
    right. exists o'. split; [now right|]. split; assumption.
Qed.

Lemma step_grows (b : best) (o : Z * Z) :
  best_energy b <= best_energy (step b o) /\ total o <= best_energy (step b o).
Proof.
  destruct (Rlt_dec (best_energy b) (total o)) as [Hlt | Hge].
  - rewrite step_take by assumption. simpl. lra.
  - rewrite step_keep by lra. lra.
Qed.

(** The running best never decreases, and ends at least as large as the
    total of every orientation scanned. *)
Lemma scan_upper (l : list (Z * Z)) (b : best) :
  best_energy b <= best_energy (fold_left step l b)
  /\ forall o, In o l -> total o <= best_energy (fold_left step l b).
Proof.
  revert b. induction l as [|o l IH]; intros b; simpl.
  - split; [lra | intros o []].
  - destruct (IH (step b o)) as [Hb Hall].
    destruct (step_grows b o) as [H1 H2].
    split; [lra|]. intros p [<- | Hp]; [lra | auto].
Qed.

Lemma fine_angles_bounds (t x : Z) :
  In x (fine_angles t) ->
  (-90 <= x <= 90 /\ t - 5 <= x <= t + 5)%Z.
Proof.
  unfold fine_angles. intros H. apply arange_In in H; lia.
Qed.

Lemma coarse_search_cases :
  coarse_search vectors_df panel_efficiency_decimal = mkBest 0 0 0
  \/ exists o, In o coarse_grid /\ 0 < total o
               /\ coarse_search vectors_df panel_efficiency_decimal
                  = mkBest (total o) (fst o) (snd o).
Proof.
  unfold coarse_search. rewrite grid_search_row_major. fold coarse_grid.
  destruct (scan_result coarse_grid (mkBest 0 0 0)) as [H | [o [Hin [Hb H]]]];
    [now left | right; exists o; auto].
Qed.

Lemma coarse_search_bounds :
  (-90 <= best_ew_tilt (coarse_search vectors_df panel_efficiency_decimal) <= 90
   /\ -90 <= best_ns_tilt (coarse_search vectors_df panel_efficiency_decimal)
      <= 90)%Z.
Proof.
  destruct coarse_search_cases as [-> | [o [Hin [_ ->]]]]; simpl; [lia|].
  now apply coarse_grid_bounds.
Qed.

Lemma search_state_cases :
  let c := coarse_search vectors_df panel_efficiency_decimal in
  search_state vectors_df panel_efficiency_decimal = c
  \/ exists o, In o (fine_grid (best_ew_tilt c, best_ns_tilt c))
               /\ best_energy c < total o
               /\ search_state vectors_df panel_efficiency_decimal
                  = mkBest (total o) (fst o) (snd o).
Proof.
  intros c. unfold search_state. fold c. cbv zeta.
  rewrite grid_search_row_major.
  exact (scan_result (fine_grid (best_ew_tilt c, best_ns_tilt c)) c).
Qed.

End SearchInvariants.

(** X1.  Whatever the frame and the efficiency, the two tilts returned are
    whole degrees in [-90,90], each within 5 degrees of the tilt the coarse
    loops ended on, and that one is 0 or a multiple of 5 of the coarse
    grid. *)
Theorem search_result_in_range (vectors_df : list SunVector)
    (panel_efficiency_decimal : R) :
  let c := coarse_search vectors_df panel_efficiency_decimal in
  let r := find_best_fixed_position vectors_df panel_efficiency_decimal in
  (-90 <= fst r <= 90 /\ -90 <= snd r <= 90)%Z
  /\ (best_ew_tilt c - 5 <= fst r <= best_ew_tilt c + 5
      /\ best_ns_tilt c - 5 <= snd r <= best_ns_tilt c + 5)%Z
  /\ In (best_ew_tilt c) coarse_angles /\ In (best_ns_tilt c) coarse_angles.
Proof.
  intros c r.
  pose proof (coarse_search_bounds vectors_df panel_efficiency_decimal) as Hc.
  fold c in Hc.
  assert (Hgrid : In (best_ew_tilt c) coarse_angles
                  /\ In (best_ns_tilt c) coarse_angles).
  { subst c.
    destruct (coarse_search_cases vectors_df panel_efficiency_decimal)
      as [-> | [o [Hin [_ ->]]]]; simpl.
    - split; vm_compute; tauto.
    - destruct o as [ew ns]. now apply in_prod_iff in Hin. }
  assert (Hr : (-90 <= fst r <= 90
                /\ -90 <= snd r <= 90
                /\ best_ew_tilt c - 5 <= fst r <= best_ew_tilt c + 5
                /\ best_ns_tilt c - 5 <= snd r <= best_ns_tilt c + 5)%Z).
  { subst r. unfold find_best_fixed_position. cbv zeta. cbn [fst snd].
    destruct (search_state_cases vectors_df panel_efficiency_decimal)
      as [-> | [o [Hin [_ ->]]]]; fold c.
    - lia.
    - destruct o as [ew ns]. unfold fine_grid in Hin.
      cbn [fst snd best_ew_tilt best_ns_tilt] in *.
      apply in_prod_iff in Hin. destruct Hin as [Hew Hns].
      apply fine_angles_bounds in Hew. apply fine_angles_bounds in Hns.
      fold c in Hew, Hns. lia. }
  repeat split; try tauto; lia.
Qed.

Lemma coarse_best_upper (vectors_df : list SunVector)
    (panel_efficiency_decimal : R) :
  let c := coarse_search vectors_df panel_efficiency_decimal in
  0 <= best_energy c
  /\ forall p, In p coarse_grid ->
       orientation_total vectors_df panel_efficiency_decimal p <= best_energy c.
Proof.
  intros c. subst c. unfold coarse_search. rewrite grid_search_row_major.
  fold coarse_grid.
  exact (scan_upper vectors_df panel_efficiency_decimal coarse_grid
           (mkBest 0 0 0)).
Qed.

Lemma fine_best_upper (vectors_df : list SunVector)
    (panel_efficiency_decimal : R) :
  let c := coarse_search vectors_df panel_efficiency_decimal in
  let s := search_state vectors_df panel_efficiency_decimal in
  best_energy c <= best_energy s
  /\ forall p, In p (fine_grid (best_ew_tilt c, best_ns_tilt c)) ->
       orientation_total vectors_df panel_efficiency_decimal p <= best_energy s.
Proof.
  intros c s. subst s. unfold search_state. fold c. cbv zeta.
  rewrite grid_search_row_major.
  exact (scan_upper vectors_df panel_efficiency_decimal
           (fine_grid (best_ew_tilt c, best_ns_tilt c)) c).
Qed.

(** X2.  Whatever the frame and the efficiency, the running best energy the
    search ends with is not negative, not below the one of the coarse loops,
    and not below the total of any orientation of the coarse grid or of the
    fine window around the coarse winner. *)
Theorem search_best_energy_bounds (vectors_df : list SunVector)
    (panel_efficiency_decimal : R) :
  let c := coarse_search vectors_df panel_efficiency_decimal in
  let s := search_state vectors_df panel_efficiency_decimal in
  0 <= best_energy c <= best_energy s
  /\ (forall p, In p coarse_grid ->
        orientation_total vectors_df panel_efficiency_decimal p
        <= best_energy s)
  /\ (forall p, In p (fine_grid (best_ew_tilt c, best_ns_tilt c)) ->
        orientation_total vectors_df panel_efficiency_decimal p
        <= best_energy s).
Proof.
  intros c s.
  destruct (coarse_best_upper vectors_df panel_efficiency_decimal) as [Hc0 Hc].
  destruct (fine_best_upper vectors_df panel_efficiency_decimal) as [Hs0 Hs].
  fold c in Hc0, Hc, Hs0, Hs. fold s in Hs0, Hs.
  split; [lra|]. split; [|exact Hs].
  intros p Hp. specialize (Hc p Hp). lra.
Qed.

Lemma series_sum_nonneg (f : SunVector -> R) (vectors : list SunVector) :
  (forall v, In v vectors -> 0 <= f v) -> 0 <= series_sum (map f vectors).
Proof.
  induction vectors as [|v vectors IH]; intros H; simpl; [lra|].
  assert (0 <= f v) by (apply H; now left).
  assert (0 <= series_sum (map f vectors)) by (apply IH; intros; apply H; now right).
  fold (series_sum (map f vectors)). lra.
Qed.

(** No total is negative when no DNI and not the efficiency is. *)
Lemma orientation_total_nonneg (vectors_df : list SunVector)
    (panel_efficiency_decimal : R) (o : Z * Z) :
  0 <= panel_efficiency_decimal ->
  Forall (fun v => 0 <= sv_dni v) vectors_df ->
  0 <= orientation_total vectors_df panel_efficiency_decimal o.
Proof.
  intros He Hd. unfold orientation_total.
  change (calculate_energy vectors_df panel_efficiency_decimal
            (Some (IZR (fst o))) (Some (IZR (snd o))))
    with (integrate vectors_df panel_efficiency_decimal
            (Fixed (IZR (fst o)) (IZR (snd o)))).
  rewrite total_energy_rows. apply series_sum_nonneg. intros v Hv.
  rewrite Forall_forall in Hd. apply sample_energy_nonneg; auto.
Qed.

Lemma origin_in_coarse_grid : In (0, 0)%Z coarse_grid.
Proof. apply in_prod_iff; split; vm_compute; tauto. Qed.

(** X3.  For sun vectors of non-negative DNI and a non-negative efficiency,
    the total of the orientation the search returns, computed again by
    [calculate_energy] as [calculate_and_export] does, is the best energy the
    search ended with; so it is at least the total of every orientation of
    the coarse grid, of the flat panel (0,0) in particular. *)
Theorem search_result_is_best
    (vectors_df : list SunVector) (panel_efficiency_decimal : R)
    (Heff : 0 <= panel_efficiency_decimal)
    (Hdni : Forall (fun v => 0 <= sv_dni v) vectors_df) :
  let r := find_best_fixed_position vectors_df panel_efficiency_decimal in
  total_energy
    (calculate_energy vectors_df panel_efficiency_decimal
       (Some (IZR (fst r))) (Some (IZR (snd r))))
  = best_energy (search_state vectors_df panel_efficiency_decimal)
  /\ (forall p, In p coarse_grid ->
        orientation_total vectors_df panel_efficiency_decimal p
        <= orientation_total vectors_df panel_efficiency_decimal r)
  /\ orientation_total vectors_df panel_efficiency_decimal (0, 0)%Z
     <= orientation_total vectors_df panel_efficiency_decimal r.
Proof.
  intros r.
  assert (Hcoarse : forall p, In p coarse_grid ->
            orientation_total vectors_df panel_efficiency_decimal p
            <= best_energy (search_state vectors_df panel_efficiency_decimal)).
  { intros p Hp.
    destruct (coarse_best_upper vectors_df panel_efficiency_decimal) as [_ Hc].
    destruct (fine_best_upper vectors_df panel_efficiency_decimal) as [Hs _].
    specialize (Hc p Hp). cbv zeta in *. lra. }
  assert (Hr : orientation_total vectors_df panel_efficiency_decimal r
               = best_energy (search_state vectors_df panel_efficiency_decimal)).
  { subst r. unfold find_best_fixed_position. cbv zeta.
    destruct (search_state_cases vectors_df panel_efficiency_decimal)
      as [Hs | [o [_ [_ Hs]]]]; cbv zeta in Hs.
    - destruct (coarse_search_cases vectors_df panel_efficiency_decimal)
        as [Hc | [o [_ [_ Hc]]]].
      + rewrite Hs, Hc. cbn [best_energy best_ew_tilt best_ns_tilt].
        pose proof (Hcoarse _ origin_in_coarse_grid) as H0.
        rewrite Hs, Hc in H0. cbn [best_energy] in H0.
        pose proof (orientation_total_nonneg vectors_df panel_efficiency_decimal
                      (0, 0)%Z Heff Hdni).
        lra.
      + rewrite Hs, Hc. cbn [best_energy best_ew_tilt best_ns_tilt].
        now rewrite <- surjective_pairing.
    - rewrite Hs. cbn [best_energy best_ew_tilt best_ns_tilt].
      now rewrite <- surjective_pairing. }
  split; [exact Hr|]. split.
  - intros p Hp. rewrite Hr. now apply Hcoarse.
  - rewrite Hr. apply Hcoarse, origin_in_coarse_grid.
Qed.

(** The two samples in range at efficiency 0.2. *)
Lemma search_result_is_best_witness :
  0 <= 1 / 5
  /\ Forall (fun v => 0 <= sv_dni v)
            [sun_vector sample_overhead; sun_vector sample_east]
  /\ orientation_total [sun_vector sample_overhead; sun_vector sample_east]
       (1 / 5) (0, 0)%Z
     <= orientation_total [sun_vector sample_overhead; sun_vector sample_east]
          (1 / 5)
          (find_best_fixed_position
             [sun_vector sample_overhead; sun_vector sample_east] (1 / 5)).
Proof.
  assert (He : 0 <= 1 / 5) by lra.
  assert (Hd : Forall (fun v => 0 <= sv_dni v)
                 [sun_vector sample_overhead; sun_vector sample_east]).
  { repeat constructor; simpl; lra. }
  split; [exact He|]. split; [exact Hd|].
  exact (proj2 (proj2 (search_result_is_best _ (1 / 5) He Hd))).
Defined.

(** ** The efficiency scales every total and does not move the optimum *)

Lemma series_sum_scale (k : R) (f : SunVector -> R) (vectors : list SunVector) :
  series_sum (map (fun v => k * f v) vectors) = k * series_sum (map f vectors).
Proof.
  induction vectors as [|v vectors IH]; simpl; [ring|].
  fold (series_sum (map (fun v => k * f v) vectors)).
  fold (series_sum (map f vectors)). rewrite IH. ring.
Qed.

Lemma series_sum_ext (f g : SunVector -> R) (vectors : list SunVector) :
  (forall v, f v = g v) ->
  series_sum (map f vectors) = series_sum (map g vectors).
Proof. intros H. f_equal. apply map_ext. exact H. Qed.

(** The orientation an optional pair of tilts stands for. *)
Lemma calculate_energy_integrate (vectors : list SunVector) (efficiency : R)
    (ew ns : option R) :
  calculate_energy vectors efficiency ew ns
  = integrate vectors efficiency
      (match ew, ns with Some e, Some n => Fixed e n | _, _ => Tracking end).
Proof. destruct ew, ns; reflexivity. Qed.

(** X4.  The total energy is proportional to the efficiency: with the
    efficiency multiplied by [k], for tracking as for any fixed tilts, the
    total is multiplied by [k]. *)
Theorem total_energy_scales_with_efficiency
    (vectors_df : list SunVector) (k efficiency : R) (ew ns : option R) :
  total_energy (calculate_energy vectors_df (k * efficiency) ew ns)
  = k * total_energy (calculate_energy vectors_df efficiency ew ns).
Proof.
  rewrite !calculate_energy_integrate, !total_energy_rows.
  rewrite <- series_sum_scale. apply series_sum_ext. intros v.
  cbn [sample_energy enerji_wh]. ring.
Qed.

Lemma orientation_total_scale (vectors_df : list SunVector) (e : R) (o : Z * Z) :
  orientation_total vectors_df e o = e * orientation_total vectors_df 1 o.
Proof.
  unfold orientation_total.
  rewrite !calculate_energy_integrate, !total_energy_rows.
  rewrite <- series_sum_scale. apply series_sum_ext. intros v.
  cbn [sample_energy enerji_wh]. ring.
Qed.

Section TwoEfficiencies.

Variable vectors_df : list SunVector.
Variables e e' : R.
Hypothesis e_pos : 0 < e.
Hypothesis e'_pos : 0 < e'.

Local Abbreviation similar := (similar_bests e e').

Lemma visit_similar (b b' : best) (o : Z * Z) :
  similar b b' -> similar (visit vectors_df e b o) (visit vectors_df e' b' o).
Proof.
  intros [Hew [Hns Hen]].
  pose proof (orientation_total_scale vectors_df e o) as He.
  pose proof (orientation_total_scale vectors_df e' o) as He'.
  set (u := orientation_total vectors_df 1 o) in *.
  destruct (Rlt_dec (best_energy b) (orientation_total vectors_df e o))
    as [Hlt | Hge];
    destruct (Rlt_dec (best_energy b') (orientation_total vectors_df e' o))
      as [Hlt' | Hge'].
  - rewrite !step_take by assumption. unfold similar_bests. simpl.
    rewrite He, He'. repeat split. ring.
  - exfalso. apply Hge'. rewrite He'. rewrite He in Hlt.
    assert (H : best_energy b * e' < e * u * e')
      by (apply Rmult_lt_compat_r; assumption).
    rewrite Hen in H. nra.
  - exfalso. apply Hge. rewrite He. rewrite He' in Hlt'.
    assert (H : best_energy b' * e < e' * u * e)
      by (apply Rmult_lt_compat_r; assumption).
    rewrite <- Hen in H. nra.
  - rewrite !step_keep by lra. now repeat split.
Qed.

Lemma scan_similar (l : list (Z * Z)) (b b' : best) :
  similar b b' ->
  similar (fold_left (visit vectors_df e) l b)
          (fold_left (visit vectors_df e') l b').
Proof.
  revert b b'. induction l as [|o l IH]; intros b b' H; simpl; [assumption|].
  apply IH. now apply visit_similar.
Qed.

Lemma search_state_similar :
  similar (search_state vectors_df e) (search_state vectors_df e').
Proof.
  assert (Hc : similar (coarse_search vectors_df e) (coarse_search vectors_df e')).
  { unfold coarse_search. rewrite !grid_search_row_major.
    apply scan_similar. unfold similar_bests. simpl. repeat split. ring. }
  unfold search_state. cbv zeta. rewrite !grid_search_row_major.
  destruct Hc as [Hew [Hns Hen]]. rewrite <- Hew, <- Hns.
  apply scan_similar. now repeat split.
Qed.

End TwoEfficiencies.

(** X5.  In exact arithmetic the orientation the search returns does not
    depend on the efficiency, as long as it is positive. *)
Theorem search_independent_of_efficiency
    (vectors_df : list SunVector) (e e' : R)
    (He : 0 < e) (He' : 0 < e') :
  find_best_fixed_position vectors_df e = find_best_fixed_position vectors_df e'.
Proof.
  unfold find_best_fixed_position. cbv zeta.
  destruct (search_state_similar vectors_df e e' He He') as [Hew [Hns _]].
  now rewrite Hew, Hns.
Qed.

(** The horizon pair at efficiencies 0.2 and 1. *)
Lemma search_independent_of_efficiency_witness :
  0 < 1 / 5 /\ 0 < 1
  /\ find_best_fixed_position horizon_pair (1 / 5)
     = find_best_fixed_position horizon_pair 1.
Proof.
  assert (He : 0 < 1 / 5) by lra.
  assert (He' : 0 < 1) by lra.
  split; [exact He|]. split; [exact He'|].
  exact (search_independent_of_efficiency horizon_pair (1 / 5) 1 He He').
Defined.

(** ** The fine window *)

Lemma arange_unit_In (start stop x : Z) :
  In x (arange start stop 1) <-> (start <= x < stop)%Z.
Proof.
  split; [apply arange_In; lia|]. intros H. unfold arange.
  apply in_map_iff. exists (Z.to_nat (x - start)). split; [lia|].
  apply in_seq. replace ((stop - start + 1 - 1) / 1)%Z with (stop - start)%Z
    by (rewrite Z.div_1_r; lia).
  lia.
Qed.

Lemma arange_unit_length (start stop : Z) :
  length (arange start stop 1) = Z.to_nat (stop - start).
Proof.
  unfold arange. rewrite length_map, length_seq.
  f_equal. rewrite Z.div_1_r. lia.
Qed.

Lemma fine_angles_length (t : Z) :
  (-90 <= t <= 90)%Z -> (6 <= length (fine_angles t) <= 11)%nat.
Proof.
  intros Ht. unfold fine_angles. rewrite arange_unit_length. lia.
Qed.

(** X6.  For a coarse tilt in [-90,90] the fine angles are exactly the whole
    degrees within 5 of it that lie in [-90,90], in ascending order: the
    window is cut at the two ends of the range, it holds the coarse tilt
    itself, and it has 11 angles away from the ends and at least 6 at
    them. *)
Theorem fine_window_clamped (t : Z) (Ht : (-90 <= t <= 90)%Z) :
  (forall x, In x (fine_angles t)
             <-> (Z.max (-90) (t - 5) <= x <= Z.min 90 (t + 5))%Z)
  /\ In t (fine_angles t)
  /\ StronglySorted Z.lt (fine_angles t)
  /\ (6 <= length (fine_angles t) <= 11)%nat
  /\ ((-85 <= t <= 85)%Z -> length (fine_angles t) = 11%nat).
Proof.
  assert (Hin : forall x, In x (fine_angles t)
                  <-> (Z.max (-90) (t - 5) <= x <= Z.min 90 (t + 5))%Z).
  { intros x. unfold fine_angles. rewrite arange_unit_In. lia. }
  split; [exact Hin|]. split; [apply Hin; lia|].
  split; [apply arange_sorted; lia|].
  unfold fine_angles. rewrite arange_unit_length. split; [lia|]. lia.
Qed.

Lemma fine_window_clamped_witness :
  (-90 <= 88 <= 90)%Z
  /\ (forall x, In x (fine_angles 88) <-> (Z.max (-90) (88 - 5) <= x <= Z.min 90 (88 + 5))%Z).
Proof.
  assert (H : (-90 <= 88 <= 90)%Z) by lia.
  split; [exact H|]. exact (proj1 (fine_window_clamped 88 H)).
Defined.

(** X7.  The coarse loops evaluate 1369 orientations, and the fine loops
    between 36 and 121 more, whatever the frame and the efficiency. *)
Theorem search_evaluation_count (vectors_df : list SunVector)
    (panel_efficiency_decimal : R) :
  let c := coarse_search vectors_df panel_efficiency_decimal in
  coarse_search vectors_df panel_efficiency_decimal
    = fold_left (visit vectors_df panel_efficiency_decimal) coarse_grid
                (mkBest 0 0 0)
  /\ search_state vectors_df panel_efficiency_decimal
     = fold_left (visit vectors_df panel_efficiency_decimal)
                 (fine_grid (best_ew_tilt c, best_ns_tilt c)) c
  /\ length coarse_grid = 1369%nat
  /\ (36 <= length (fine_grid (best_ew_tilt c, best_ns_tilt c)) <= 121)%nat.
Proof.
  intros c.
  split; [unfold coarse_search; now rewrite grid_search_row_major|].
  split; [unfold search_state; cbv zeta; now rewrite grid_search_row_major|].
  split; [reflexivity|].
  destruct (coarse_search_bounds vectors_df panel_efficiency_decimal)
    as [Hew Hns]. fold c in Hew, Hns.
  pose proof (fine_angles_length _ Hew) as Lew.
  pose proof (fine_angles_length _ Hns) as Lns.
  unfold fine_grid. cbn [fst snd]. rewrite length_prod. nia.
Qed.

(** ** The direction of the panel normal *)

Lemma sin_radians_pos (d : R) : 0 < d < 180 -> 0 < sin (radians d).
Proof.
  intros H. pose proof PI_RGT_0 as Hpi. apply sin_gt_0; unfold radians; nra.
Qed.

Lemma sin_radians_neg (d : R) : -180 < d < 0 -> sin (radians d) < 0.
Proof.
  intros H. replace d with (- - d) by ring.
  rewrite radians_opp, sin_neg.
  assert (0 < sin (radians (- d))) by (apply sin_radians_pos; lra). lra.
Qed.

(** X8.  For tilts in [-90,90] the normal is
    [(sin ew, - cos ew * sin ns, cos ew * cos ns)]: it never points below the
    horizon; its east component has the sign of [ew_tilt]; and, unless the
    panel is tilted fully east or west, its north component has the sign
    opposite to [ns_tilt], so a positive [ns_tilt] turns the panel towards
    negative y. *)
Theorem panel_normal_direction (ew_tilt ns_tilt : R)
    (Hew : valid_tilt ew_tilt) (Hns : valid_tilt ns_tilt) :
  let x := sin (radians ew_tilt) in
  let y := - (cos (radians ew_tilt) * sin (radians ns_tilt)) in
  let z := cos (radians ew_tilt) * cos (radians ns_tilt) in
  get_panel_normal ew_tilt ns_tilt = (x, y, z)
  /\ 0 <= z
  /\ (0 < ew_tilt -> 0 < x) /\ (ew_tilt < 0 -> x < 0)
  /\ (-90 < ew_tilt < 90 -> 0 < ns_tilt -> y < 0)
  /\ (-90 < ew_tilt < 90 -> ns_tilt < 0 -> 0 < y)
  /\ (ns_tilt = 0 -> y = 0).
Proof.
  intros x y z. unfold valid_tilt in *.
  split; [apply get_panel_normal_components|].
  pose proof (cos_radians_nonneg ew_tilt Hew) as Hce.
  pose proof (cos_radians_nonneg ns_tilt Hns) as Hcn.
  split; [subst z; apply Rmult_le_pos; assumption|].
  split; [intros H; subst x; apply sin_radians_pos; lra|].
  split; [intros H; subst x; apply sin_radians_neg; lra|].
  split; [|split].
  - intros He H. subst y.
    pose proof (cos_radians_pos ew_tilt He).
    assert (0 < sin (radians ns_tilt)) by (apply sin_radians_pos; lra).
    assert (0 < cos (radians ew_tilt) * sin (radians ns_tilt))
      by (apply Rmult_lt_0_compat; assumption).
    lra.
  - intros He H. subst y.
    pose proof (cos_radians_pos ew_tilt He).
    assert (sin (radians ns_tilt) < 0) by (apply sin_radians_neg; lra).
    nra.
  - intros ->. subst y. rewrite radians_0, sin_0. ring.
Qed.

Lemma panel_normal_direction_witness :
  valid_tilt 30 /\ valid_tilt 45
  /\ - (cos (radians 30) * sin (radians 45)) < 0.
Proof.
  assert (H1 : valid_tilt 30) by (unfold valid_tilt; lra).
  assert (H2 : valid_tilt 45) by (unfold valid_tilt; lra).
  split; [exact H1|]. split; [exact H2|].
  apply (proj1 (proj2 (proj2 (proj2 (proj2 (panel_normal_direction 30 45 H1 H2))))));
    lra.
Defined.

(** ** The panel drawn by plot_panel *)

Lemma dot3_Ry (theta : R) (u v : vec3) :
  dot3 (matvec (Ry theta) u) (matvec (Ry theta) v) = dot3 u v.
Proof.
  destruct u as [[ux uy] uz]. destruct v as [[vx vy] vz].
  unfold matvec, Ry, dot3.
  transitivity
    ((ux * vx + uz * vz) * (sin theta * sin theta + cos theta * cos theta)
     + uy * vy);
    [ring | rewrite sin_cos_sq; ring].
Qed.

Lemma dot3_Rx (theta : R) (u v : vec3) :
  dot3 (matvec (Rx theta) u) (matvec (Rx theta) v) = dot3 u v.
Proof.
  destruct u as [[ux uy] uz]. destruct v as [[vx vy] vz].
  unfold matvec, Rx, dot3.
  transitivity
    ((uy * vy + uz * vz) * (sin theta * sin theta + cos theta * cos theta)
     + ux * vx);
    [ring | rewrite sin_cos_sq; ring].
Qed.

(** X9.  Whatever the tilts, the five corners of the panel the chart draws
    are perpendicular to the normal it draws from the same tilts, each at
    squared distance 1/2 from the centre, and the outline is closed: the last
    corner is the first. *)
Theorem panel_corners_perpendicular (ew_tilt ns_tilt : R) :
  Forall (fun corner =>
            dot3 corner (get_panel_normal ew_tilt ns_tilt) = 0
            /\ dot3 corner corner = 1 / 2)
         (panel_corners ew_tilt ns_tilt)
  /\ length (panel_corners ew_tilt ns_tilt) = 5%nat
  /\ nth_error (panel_corners ew_tilt ns_tilt) 4
     = nth_error (panel_corners ew_tilt ns_tilt) 0.
Proof.
  split; [|split; reflexivity].
  unfold panel_corners. cbv zeta. apply Forall_forall. intros c Hc.
  apply in_map_iff in Hc. destruct Hc as [flat [<- Hflat]].
  unfold get_panel_normal. cbv zeta. rewrite !dot3_Rx, !dot3_Ry.
  unfold corners_flat in Hflat. cbv zeta in Hflat. simpl in Hflat.
  repeat destruct Hflat as [<- | Hflat]; try contradiction;
    unfold dot3; split; field.
Qed.

(** ** The time zones of the form *)

Example tz_tables_ends :
  hd_error tz_display_options = Some "GMT-12"%string
  /\ last tz_display_options ""%string = "GMT+14"%string
  /\ dict_get tz_value_map "GMT+0"%string = Some "Etc/GMT+0"%string
  /\ dict_get tz_value_map "GMT+15"%string = None.
Proof. repeat split. Qed.

Lemma py_range_In (a b x : Z) : In x (py_range a b) <-> (a <= x < b)%Z.
Proof.
  unfold py_range. rewrite in_map_iff. split.
  - intros [i [<- Hi]]. apply in_seq in Hi. lia.
  - intros H. exists (Z.to_nat (x - a)). split; [lia|]. apply in_seq. lia.
Qed.

(** The check of one offset, as a boolean. *)
Lemma tz_offsets_checked :
  forallb
    (fun k =>
       match dict_get tz_value_map ("GMT" ++ format_plus_d k)%string with
       | Some value =>
           andb (String.eqb value ("Etc/GMT" ++ format_plus_d (- k))%string)
                (existsb (String.eqb ("GMT" ++ format_plus_d k)%string)
                         tz_display_options)
       | None => false
       end)
    (py_range (-12) 15) = true.
Proof. vm_compute. reflexivity. Qed.

Lemma tz_options_checked :
  forallb
    (fun display =>
       match dict_get tz_value_map display with
       | Some _ => true
       | None => false
       end)
    tz_display_options = true.
Proof. vm_compute. reflexivity. Qed.

(** X10.  For every offset k from -12 to 14 the combobox offers "GMT+k" (or
    "GMT-k"), and the map sends it to the zone "Etc/GMT" with the opposite
    sign; there are 27 entries, all different, every entry of the combobox
    has a zone, and the default entry "GMT+3" is sent to "Etc/GMT-3". *)
Theorem tz_value_map_inverts_sign (k : Z) (Hk : (-12 <= k <= 14)%Z) :
  In ("GMT" ++ format_plus_d k)%string tz_display_options
  /\ dict_get tz_value_map ("GMT" ++ format_plus_d k)%string
     = Some ("Etc/GMT" ++ format_plus_d (- k))%string
  /\ length tz_display_options = 27%nat
  /\ length tz_value_map = 27%nat
  /\ NoDup tz_display_options
  /\ map fst tz_value_map = tz_display_options
  /\ (forall display, In display tz_display_options ->
        exists value, dict_get tz_value_map display = Some value)
  /\ dict_get tz_value_map default_tz_display = Some "Etc/GMT-3"%string.
Proof.
  pose proof tz_offsets_checked as H. rewrite forallb_forall in H.
  assert (Hin : In k (py_range (-12) 15)) by (apply py_range_In; lia).
  specialize (H k Hin).
  destruct (dict_get tz_value_map ("GMT" ++ format_plus_d k)%string)
    as [value|]; [|discriminate].
  apply andb_prop in H. destruct H as [Hv Hd].
  apply String.eqb_eq in Hv. apply existsb_exists in Hd.
  destruct Hd as [d [Hd Heq]]. apply String.eqb_eq in Heq. subst d value.
  split; [exact Hd|]. split; [reflexivity|].
  split; [reflexivity|]. split; [reflexivity|].
  split.
  - vm_compute. repeat constructor; simpl; intuition discriminate.
  - split; [reflexivity|]. split; [|reflexivity].
    intros display Hdisp. pose proof tz_options_checked as Ho.
    rewrite forallb_forall in Ho. specialize (Ho display Hdisp).
    destruct (dict_get tz_value_map display) as [value|]; [|discriminate].
    now exists value.
Qed.

Lemma tz_value_map_inverts_sign_witness :
  (-12 <= 3 <= 14)%Z
  /\ dict_get tz_value_map ("GMT" ++ format_plus_d 3)%string
     = Some ("Etc/GMT" ++ format_plus_d (- 3))%string.
Proof.
  assert (H : (-12 <= 3 <= 14)%Z) by lia.
  split; [exact H|]. exact (proj1 (proj2 (tz_value_map_inverts_sign 3 H))).
Defined.

(** ** on_calculate_click and the guards of calculate_and_export *)

Lemma Rleb_true (a b : R) : Rleb a b = true <-> a <= b.
Proof.
  unfold Rleb. destruct (Rle_dec a b); split; intros; try discriminate; tauto.
Qed.

Lemma read_custom_tilts_valid (B : Builtins) (f : Form) (ew ns : R) :
  read_custom_tilts B f = Some (ew, ns) ->
  py_float B (ew_tilt_entry f) = Some ew
  /\ py_float B (ns_tilt_entry f) = Some ns
  /\ valid_tilt ew /\ valid_tilt ns.
Proof.
  unfold read_custom_tilts, valid_tilt.
  destruct (py_float B (ew_tilt_entry f)) as [e|]; [|discriminate].
  destruct (py_float B (ns_tilt_entry f)) as [n|]; [|discriminate].
  destruct (Rleb (-90) e && Rleb e 90)%bool eqn:He; [|discriminate].
  destruct (Rleb (-90) n && Rleb n 90)%bool eqn:Hn; [|discriminate].
  simpl. intros H. injection H as <- <-.
  apply andb_prop in He, Hn. destruct He as [He1 He2]. destruct Hn as [Hn1 Hn2].
  apply Rleb_true in He1, He2, Hn1, Hn2. repeat split; assumption.
Qed.

Lemma read_location_and_export_call (B : Builtins) (f : Form) (year : Z)
    (eff : R) (cew cns : option R) (call : ExportCall) :
  read_location_and_export B f year eff cew cns = Export call ->
  call_start_year call = year /\ call_efficiency call = eff
  /\ call_custom_ew_tilt call = cew /\ call_custom_ns_tilt call = cns
  /\ call_filepath call = save_path f /\ truthy (save_path f) = true
  /\ loc_name call = py_strip B (name_entry f)
  /\ truthy (loc_name call) = true
  /\ py_float B (lat_entry f) = Some (loc_latitude call)
  /\ py_float B (lon_entry f) = Some (loc_longitude call)
  /\ dict_get tz_value_map (tz_combo f) = Some (loc_timezone call).
Proof.
  unfold read_location_and_export. cbv zeta.
  destruct (truthy (py_strip B (name_entry f))) eqn:Hname;
    cbn [andb negb]; [|discriminate].
  destruct (truthy (lat_entry f)); cbn [andb negb]; [|discriminate].
  destruct (truthy (lon_entry f)); cbn [andb negb]; [|discriminate].
  destruct (truthy (tz_combo f)); cbn [andb negb]; [|discriminate].
  destruct (dict_get tz_value_map (tz_combo f)) as [tz|]; [|discriminate].
  destruct (py_float B (lat_entry f)) as [lat|]; [|discriminate].
  destruct (py_float B (lon_entry f)) as [lon|]; [|discriminate].
  destruct (truthy (save_path f)) eqn:Hpath; [|discriminate].
  intros H. injection H as <-. simpl. repeat split; auto.
Qed.






(** ** calculate_and_export: months and annual totals *)

Lemma series_sum_map_plus {A : Type} (f g : A -> R) (l : list A) :
  series_sum (map (fun a => f a + g a) l)
  = series_sum (map f l) + series_sum (map g l).
Proof.
  induction l as [|a l IH]; simpl; [ring|].
  fold (series_sum (map (fun a => f a + g a) l)).
  fold (series_sum (map f l)). fold (series_sum (map g l)).
  rewrite IH. ring.
Qed.

Lemma series_sum_map_div (c : R) (l : list R) :
  series_sum (map (fun x => x / c) l) = series_sum l / c.
Proof.
  induction l as [|a l IH]; simpl; [unfold Rdiv; ring|].
  fold (series_sum (map (fun x => x / c) l)). fold (series_sum l).
  rewrite IH. unfold Rdiv. ring.
Qed.

(** A row falls in exactly one bin of a list of distinct months. *)
Lemma bin_of_row (k : Z) (v : R) (ks : list Z) :
  NoDup ks ->
  series_sum (map (fun m => if (k =? m)%Z then v else 0) ks)
  = if in_dec Z.eq_dec k ks then v else 0.
Proof.
  intros Hnd. induction Hnd as [|m l Hm Hnd IH]; simpl; [reflexivity|].
  fold (series_sum (map (fun m => if (k =? m)%Z then v else 0) l)).
  rewrite IH. destruct (Z.eqb_spec k m) as [-> | Hne].
  - destruct (Z.eq_dec m m) as [E | H]; [|now elim H].
    destruct (in_dec Z.eq_dec m l); [contradiction | ring].
  - destruct (Z.eq_dec m k) as [H | E]; [now elim Hne|].
    destruct (in_dec Z.eq_dec k l); ring.
Qed.

(** The sums of the bins add up to the sum of the column, when every row
    falls in one of the bins. *)
Lemma bin_sums_total (key : EnergySample -> Z) (ks : list Z)
    (df : list EnergySample) :
  NoDup ks -> (forall e, In e df -> In (key e) ks) ->
  series_sum
    (map (fun m =>
            series_sum (map enerji_wh (filter (fun e => (key e =? m)%Z) df)))
         ks)
  = series_sum (map enerji_wh df).
Proof.
  intros Hnd. induction df as [|e df IH]; intros Hin.
  - simpl. clear. induction ks as [|m ks IHks]; simpl; [reflexivity|].
    simpl in IHks. rewrite IHks. ring.
  - transitivity
      (series_sum
         (map (fun m =>
                 (if (key e =? m)%Z then enerji_wh e else 0)
                 + series_sum
                     (map enerji_wh (filter (fun e => (key e =? m)%Z) df)))
              ks)).
    + f_equal. apply map_ext. intros m. simpl.
      destruct (key e =? m)%Z; simpl; [reflexivity | ring].
    + rewrite series_sum_map_plus, IH by (intros; apply Hin; now right).
      rewrite bin_of_row by assumption.
      destruct (in_dec Z.eq_dec (key e) ks) as [_ | Hno];
        [reflexivity | elim Hno; apply Hin; now left].
Qed.

Lemma py_range_NoDup (a b : Z) : NoDup (py_range a b).
Proof.
  unfold py_range. apply Finite.Injective_map_NoDup; [|apply seq_NoDup].
  intros i j H. lia.
Qed.

Lemma sorted_head_le (x d : Z) (l : list Z) :
  StronglySorted Z.le (x :: l) ->
  forall y, In y (x :: l) -> (x <= y <= last (x :: l) d)%Z.
Proof.
  revert x. induction l as [|z l IH]; intros x Hs y Hy.
  - destruct Hy as [<- | []]. simpl. lia.
  - inversion Hs as [|? ? Hs' Hall]; subst.
    rewrite Forall_forall in Hall.
    assert (Hz : (x <= z)%Z) by (apply Hall; now left).
    change (last (x :: z :: l) d) with (last (z :: l) d).
    destruct Hy as [<- | Hy].
    + specialize (IH z Hs' z (or_introl eq_refl)). lia.
    + specialize (IH z Hs' y Hy). lia.
Qed.

Lemma last_of_map {A B : Type} (f : A -> B) (l : list A) (d : A) :
  last (map f l) (f d) = f (last l d).
Proof.
  induction l as [|a l IH]; [reflexivity|].
  destruct l as [|a' l]; [reflexivity|]. exact IH.
Qed.

(** The monthly sums of a frame whose months are in order add up to the
    total of the frame. *)
Lemma resample_month_sum_total (month_of : Z -> Z) (df : list EnergySample) :
  StronglySorted Z.le (map (fun e => month_of (en_time e)) df) ->
  series_sum (resample_month_sum month_of df) = total_energy df.
Proof.
  intros Hs. unfold total_energy. destruct df as [|first df]; [reflexivity|].
  unfold resample_month_sum. cbv zeta.
  apply bin_sums_total; [apply py_range_NoDup|].
  intros e He. apply py_range_In.
  pose proof (last_of_map (fun e => month_of (en_time e)) (first :: df) first)
    as Hlast.
  cbv beta in Hlast. rewrite <- Hlast.
  assert (Hin : In (month_of (en_time e))
                   (map (fun e => month_of (en_time e)) (first :: df)))
    by (apply (in_map (fun e => month_of (en_time e))); assumption).
  assert (H : (month_of (en_time first) <= month_of (en_time e)
               <= last (map (fun e => month_of (en_time e)) (first :: df))
                       (month_of (en_time first)))%Z)
    by exact (sorted_head_le _ (month_of (en_time first)) _ Hs _ Hin).
  lia.
Qed.

Lemma energy_frame_months (month_of : Z -> Z) (vectors_df : list SunVector)
    (efficiency : R) (ew ns : option R) :
  map (fun e => month_of (en_time e))
      (calculate_energy vectors_df efficiency ew ns)
  = map (fun v => month_of (sv_time v)) vectors_df.
Proof.
  rewrite calculate_energy_integrate, integrate_rows, map_map. reflexivity.
Qed.

Lemma monthly_column_total (month_of : Z -> Z) (vectors_df : list SunVector)
    (efficiency : R) (ew ns : option R) :
  months_in_order month_of vectors_df ->
  series_sum (monthly_column month_of
                (calculate_energy vectors_df efficiency ew ns))
  = total_energy (calculate_energy vectors_df efficiency ew ns) / 1000.
Proof.
  intros H. unfold monthly_column.
  rewrite series_sum_map_div, resample_month_sum_total; [reflexivity|].
  rewrite energy_frame_months. exact H.
Qed.

(** X13.  When the months of the index do not decrease, the three totals
    the export reports are the annual totals of the three energy frames
    divided by 1000, whatever the months are; the tilts reported are the ones
    the search returned; and without the two custom tilts the custom total is
    the total of the best fixed orientation. *)
Theorem reported_totals_are_annual
    (month_of : Z -> Z) (vectors_df : list SunVector)
    (panel_efficiency_decimal : R) (custom_ew_tilt custom_ns_tilt : option R)
    (Hmonths : months_in_order month_of vectors_df) :
  let r := results_of month_of vectors_df panel_efficiency_decimal
                      custom_ew_tilt custom_ns_tilt in
  let best := find_best_fixed_position vectors_df panel_efficiency_decimal in
  (eniyi_dogu_bati_egimi r, eniyi_kuzey_guney_egimi r) = best
  /\ toplam_enerji_izleme r
     = total_energy
         (calculate_energy vectors_df panel_efficiency_decimal None None)
       / 1000
  /\ toplam_enerji_sabit_eniyi r
     = orientation_total vectors_df panel_efficiency_decimal best / 1000
  /\ toplam_enerji_ozel_sabit r
     = match custom_ew_tilt, custom_ns_tilt with
       | Some ew, Some ns =>
           total_energy
             (calculate_energy vectors_df panel_efficiency_decimal
                (Some ew) (Some ns)) / 1000
       | _, _ => toplam_enerji_sabit_eniyi r
       end.
Proof.
  intros r best. subst r. unfold results_of, monthly_data_of.
  fold best. destruct best as [bew bns] eqn:Hbest.
  cbn [eniyi_dogu_bati_egimi eniyi_kuzey_guney_egimi toplam_enerji_izleme
       toplam_enerji_sabit_eniyi toplam_enerji_ozel_sabit enerji_wh_izleme
       enerji_wh_sabit_eniyi enerji_wh_ozel_sabit].
  split; [reflexivity|].
  split; [now apply monthly_column_total|].
  split; [now apply monthly_column_total|].
  destruct custom_ew_tilt, custom_ns_tilt; try reflexivity.
  now apply monthly_column_total.
Qed.

(** Two rows of January, with the month of a 10-minute step counted in
    blocks of 31 days. *)
Lemma reported_totals_are_annual_witness :
  months_in_order (fun t => (t / 4464)%Z)
                  [sun_vector sample_overhead; sun_vector sample_east]
  /\ toplam_enerji_izleme
       (results_of (fun t => (t / 4464)%Z)
                   [sun_vector sample_overhead; sun_vector sample_east]
                   (1 / 5) None None)
     = total_energy
         (calculate_energy [sun_vector sample_overhead; sun_vector sample_east]
                           (1 / 5) None None)
       / 1000.
Proof.
  assert (H : months_in_order (fun t => (t / 4464)%Z)
                [sun_vector sample_overhead; sun_vector sample_east]).
  { unfold months_in_order. simpl. repeat constructor. vm_compute. discriminate. }
  split; [exact H|].
  exact (proj1 (proj2 (reported_totals_are_annual _ _ (1 / 5) None None H))).
Defined.

(** ** The efficiency chart *)

Lemma relative_efficiency_percentage (fixed_energy tracking_energy : R) :
  0 <= fixed_energy <= tracking_energy -> 0 < tracking_energy ->
  relative_efficiency fixed_energy tracking_energy
    = Finite (fixed_energy / tracking_energy * 100)
  /\ 0 <= fixed_energy / tracking_energy * 100 <= 100.
Proof.
  intros [H0 H1] Ht. split.
  - unfold relative_efficiency. rewrite np_divide_nonzero by lra. reflexivity.
  - assert (Hq : 0 <= fixed_energy / tracking_energy <= 1).
    { split.
      - apply Rmult_le_pos; [lra|]. left. now apply Rinv_0_lt_compat.
      - apply (Rmult_le_reg_r tracking_energy); [assumption|].
        unfold Rdiv. rewrite Rmult_assoc, Rinv_l by lra. lra. }
    lra.
Qed.

(** X14.  For a monthly frame whose fixed columns sum to no more than the
    tracking column, all sums non-negative and the tracking sum positive,
    every bar of the efficiency chart is a finite percentage in [0,100], so
    within the 0..105 limits of the axis; the chart has the bar of the best
    fixed orientation first, and a second bar exactly when the custom column
    is there and differs from the best one. *)
Theorem efficiency_chart_percentages (monthly_data : MonthlyData)
    (Htracking : 0 < series_sum (enerji_wh_izleme monthly_data))
    (Hbest : 0 <= series_sum (enerji_wh_sabit_eniyi monthly_data)
             <= series_sum (enerji_wh_izleme monthly_data))
    (Hcustom : forall ozel, enerji_wh_ozel_sabit monthly_data = Some ozel ->
               0 <= series_sum ozel
               <= series_sum (enerji_wh_izleme monthly_data)) :
  Forall (fun bar => exists p, snd bar = Finite p /\ 0 <= p <= 100)
         (efficiency_data monthly_data)
  /\ hd_error (efficiency_data monthly_data)
     = Some ("En İyi Sabit"%string,
             Finite (series_sum (enerji_wh_sabit_eniyi monthly_data)
                     / series_sum (enerji_wh_izleme monthly_data) * 100))
  /\ length (efficiency_data monthly_data)
     = match enerji_wh_ozel_sabit monthly_data with
       | Some ozel =>
           if series_equals ozel (enerji_wh_sabit_eniyi monthly_data)
           then 1%nat else 2%nat
       | None => 1%nat
       end.
Proof.
  destruct (relative_efficiency_percentage _ _ Hbest Htracking) as [Eb Pb].
  unfold efficiency_data. cbv zeta. rewrite Eb.
  destruct (enerji_wh_ozel_sabit monthly_data) as [ozel|] eqn:Hozel.
  - destruct (series_equals ozel (enerji_wh_sabit_eniyi monthly_data));
      cbn [negb app hd_error length].
    + split; [|split; reflexivity].
      constructor; [|constructor]. eexists. split; [reflexivity | exact Pb].
    + destruct (relative_efficiency_percentage _ _ (Hcustom ozel eq_refl)
                  Htracking) as [Ec Pc].
      rewrite Ec. split; [|split; reflexivity].
      constructor; [|constructor; [|constructor]];
        eexists; (split; [reflexivity | assumption]).
  - cbn [hd_error length]. split; [|split; reflexivity].
    constructor; [|constructor]. eexists. split; [reflexivity | exact Pb].
Qed.

Lemma efficiency_chart_percentages_witness :
  0 < series_sum (enerji_wh_izleme two_months)
  /\ Forall (fun bar => exists p, snd bar = Finite p /\ 0 <= p <= 100)
            (efficiency_data two_months).
Proof.
  assert (H1 : 0 < series_sum (enerji_wh_izleme two_months))
    by (simpl; lra).
  assert (H2 : 0 <= series_sum (enerji_wh_sabit_eniyi two_months)
               <= series_sum (enerji_wh_izleme two_months))
    by (simpl; lra).
  assert (H3 : forall ozel, enerji_wh_ozel_sabit two_months = Some ozel ->
               0 <= series_sum ozel
               <= series_sum (enerji_wh_izleme two_months)).
  { intros ozel H. injection H as <-. simpl. lra. }
  split; [exact H1|].
  exact (proj1 (efficiency_chart_percentages two_months H1 H2 H3)).
Defined.

(** ** From the sun vectors to the chart *)

Lemma total_between_zero_and_tracking (vectors : list SunVector)
    (efficiency : R) (ew ns : option R) :
  0 <= efficiency -> Forall (fun v => 0 <= sv_dni v) vectors ->
  0 <= total_energy (calculate_energy vectors efficiency ew ns)
  <= total_energy (calculate_energy vectors efficiency None None).
Proof.
  intros He Hd. rewrite Forall_forall in Hd.
  rewrite !calculate_energy_integrate, !total_energy_rows. split.
  - apply series_sum_nonneg. intros v Hv. apply sample_energy_nonneg; auto.
  - apply series_sum_le. intros v Hv. specialize (Hd v Hv).
    cbn [sample_energy enerji_wh].
    set (o := match ew, ns with Some e, Some n => Fixed e n | _, _ => Tracking end).
    pose proof (incidence_cosine_bounds o v) as [_ Hc].
    cbn [incidence_cosine].
    assert (H : sv_dni v * incidence_cosine o v <= sv_dni v * 1)
      by (apply Rmult_le_compat_l; assumption).
    assert (H' : sv_dni v * incidence_cosine o v * efficiency
                 <= sv_dni v * 1 * efficiency)
      by (apply Rmult_le_compat_r; assumption).
    lra.
Qed.

Lemma series_equals_refl (a : list R) : series_equals a a = true.
Proof.
  unfold series_equals. destruct (list_eq_dec Req_dec_T a a) as [E | H];
    [reflexivity | now elim H].
Qed.

(** X15.  For sun vectors of non-negative DNI with a positive tracking
    total, a non-negative efficiency and months in order, the first bar of
    the chart built from the monthly frame of the export is 100 times the
    annual total of the orientation the search returned over the annual
    tracking total: the monthly bins and the division by 1000 cancel.  It lies
    in [0,100]; and without the two custom tilts it is the only bar. *)
Theorem export_chart_is_annual_ratio
    (month_of : Z -> Z) (vectors_df : list SunVector)
    (panel_efficiency_decimal : R) (custom_ew_tilt custom_ns_tilt : option R)
    (Hmonths : months_in_order month_of vectors_df)
    (Heff : 0 <= panel_efficiency_decimal)
    (Hdni : Forall (fun v => 0 <= sv_dni v) vectors_df)
    (Hpos : 0 < total_energy
                  (calculate_energy vectors_df panel_efficiency_decimal
                                    None None)) :
  let monthly_data :=
    monthly_data_of month_of vectors_df panel_efficiency_decimal
                    custom_ew_tilt custom_ns_tilt in
  let best := find_best_fixed_position vectors_df panel_efficiency_decimal in
  let ratio :=
    orientation_total vectors_df panel_efficiency_decimal best
    / total_energy
        (calculate_energy vectors_df panel_efficiency_decimal None None)
    * 100 in
  hd_error (efficiency_data monthly_data)
    = Some ("En İyi Sabit"%string, Finite ratio)
  /\ 0 <= ratio <= 100
  /\ (custom_ew_tilt = None \/ custom_ns_tilt = None ->
      efficiency_data monthly_data = [("En İyi Sabit"%string, Finite ratio)]).
Proof.
  intros monthly_data best ratio.
  set (tracking := total_energy
         (calculate_energy vectors_df panel_efficiency_decimal None None)) in *.
  assert (Hbest : 0 <= orientation_total vectors_df panel_efficiency_decimal best
                  <= tracking)
    by (apply total_between_zero_and_tracking; assumption).
  assert (Hsum_t : series_sum (enerji_wh_izleme monthly_data) = tracking / 1000).
  { subst monthly_data. unfold monthly_data_of.
    destruct (find_best_fixed_position vectors_df panel_efficiency_decimal).
    cbn [enerji_wh_izleme]. now apply monthly_column_total. }
  assert (Hsum_b : series_sum (enerji_wh_sabit_eniyi monthly_data)
                   = orientation_total vectors_df panel_efficiency_decimal best
                     / 1000).
  { subst monthly_data best. unfold monthly_data_of, orientation_total.
    destruct (find_best_fixed_position vectors_df panel_efficiency_decimal).
    cbn [enerji_wh_sabit_eniyi fst snd]. now apply monthly_column_total. }
  assert (Hrel : relative_efficiency
                   (series_sum (enerji_wh_sabit_eniyi monthly_data))
                   (series_sum (enerji_wh_izleme monthly_data))
                 = Finite ratio).
  { rewrite Hsum_t, Hsum_b.
    destruct (relative_efficiency_percentage
                (orientation_total vectors_df panel_efficiency_decimal best / 1000)
                (tracking / 1000)) as [E _]; [lra | lra |].
    rewrite E. f_equal. subst ratio. field. lra. }
  assert (Hratio : 0 <= ratio <= 100).
  { destruct (relative_efficiency_percentage _ _ Hbest Hpos) as [_ P].
    exact P. }
  split; [|split; [exact Hratio|]].
  - unfold efficiency_data. cbv zeta. rewrite Hrel.
    destruct (enerji_wh_ozel_sabit monthly_data) as [ozel|]; [|reflexivity].
    destruct (negb (series_equals ozel (enerji_wh_sabit_eniyi monthly_data)));
      reflexivity.
  - intros Hnone. unfold efficiency_data. cbv zeta. rewrite Hrel.
    assert (Hcol : enerji_wh_ozel_sabit monthly_data
                   = Some (enerji_wh_sabit_eniyi monthly_data)).
    { subst monthly_data. unfold monthly_data_of.
      destruct (find_best_fixed_position vectors_df panel_efficiency_decimal).
      destruct Hnone as [-> | ->]; [reflexivity|].
      destruct custom_ew_tilt; reflexivity. }
    rewrite Hcol, series_equals_refl. reflexivity.
Qed.

Lemma two_samples_tracking_total :
  total_energy
    (calculate_energy [sun_vector sample_overhead; sun_vector sample_east]
                      (1 / 5) None None)
  = 60.
Proof.
  rewrite calculate_energy_integrate, total_energy_rows.
  cbn [map series_sum fold_right sample_energy enerji_wh incidence_cosine
       sun_vector sample_overhead sample_east sv_dni dni].
  field.
Qed.

(** The two rows of January at efficiency 0.2, without custom tilts. *)
Lemma export_chart_is_annual_ratio_witness :
  months_in_order (fun t => (t / 4464)%Z)
                  [sun_vector sample_overhead; sun_vector sample_east]
  /\ 0 <= 1 / 5
  /\ Forall (fun v => 0 <= sv_dni v)
            [sun_vector sample_overhead; sun_vector sample_east]
  /\ 0 < total_energy
           (calculate_energy [sun_vector sample_overhead; sun_vector sample_east]
                             (1 / 5) None None)
  /\ length
       (efficiency_data
          (monthly_data_of (fun t => (t / 4464)%Z)
             [sun_vector sample_overhead; sun_vector sample_east]
             (1 / 5) None None))
     = 1%nat.
Proof.
  assert (H1 : months_in_order (fun t => (t / 4464)%Z)
                 [sun_vector sample_overhead; sun_vector sample_east]).
  { unfold months_in_order. simpl. repeat constructor. vm_compute. discriminate. }
  assert (H2 : 0 <= 1 / 5) by lra.
  assert (H3 : Forall (fun v => 0 <= sv_dni v)
                 [sun_vector sample_overhead; sun_vector sample_east]).
  { repeat constructor; simpl; lra. }
  assert (H4 : 0 < total_energy
                     (calculate_energy
                        [sun_vector sample_overhead; sun_vector sample_east]
                        (1 / 5) None None))
    by (rewrite two_samples_tracking_total; lra).
  split; [exact H1|]. split; [exact H2|]. split; [exact H3|].
  split; [exact H4|].
  rewrite (proj2 (proj2 (export_chart_is_annual_ratio _ _ (1 / 5) None None
                           H1 H2 H3 H4)) (or_introl eq_refl)).
  reflexivity.
Defined.

(** ** Rows are independent and their order does not matter *)

Lemma series_sum_app (a b : list R) :
  series_sum (a ++ b) = series_sum a + series_sum b.
Proof.
  induction a as [|x a IH]; simpl; [ring|].
  fold (series_sum (a ++ b)). fold (series_sum a). rewrite IH. ring.
Qed.

(** X16.  The energy of a row depends on that row alone: the frame of a
    concatenation is the concatenation of the frames, and its total the sum
    of the totals, for tracking as for any fixed tilts. *)
Theorem energy_of_concatenation (v1 v2 : list SunVector) (efficiency : R)
    (ew ns : option R) :
  calculate_energy (v1 ++ v2) efficiency ew ns
  = calculate_energy v1 efficiency ew ns ++ calculate_energy v2 efficiency ew ns
  /\ total_energy (calculate_energy (v1 ++ v2) efficiency ew ns)
     = total_energy (calculate_energy v1 efficiency ew ns)
       + total_energy (calculate_energy v2 efficiency ew ns).
Proof.
  rewrite !calculate_energy_integrate, !integrate_rows, map_app.
  split; [reflexivity|].
  unfold total_energy. rewrite map_app. apply series_sum_app.
Qed.

Lemma series_sum_permutation (a b : list R) :
  Permutation a b -> series_sum a = series_sum b.
Proof.
  induction 1 as [| x l l' H IH | x y l | l l' l'' H IH H' IH'].
  - reflexivity.
  - simpl. fold (series_sum l). fold (series_sum l'). now rewrite IH.
  - simpl. ring.
  - now rewrite IH.
Qed.

Lemma total_energy_permutation (v v' : list SunVector) (efficiency : R)
    (ew ns : option R) :
  Permutation v v' ->
  total_energy (calculate_energy v efficiency ew ns)
  = total_energy (calculate_energy v' efficiency ew ns).
Proof.
  intros H. rewrite !calculate_energy_integrate, !total_energy_rows.
  apply series_sum_permutation. now apply Permutation_map.
Qed.

Lemma grid_search_ext (v v' : list SunVector) (e : R) (l : list (Z * Z))
    (b : best) :
  (forall o, orientation_total v e o = orientation_total v' e o) ->
  fold_left (visit v e) l b = fold_left (visit v' e) l b.
Proof.
  intros H. revert b. induction l as [|o l IH]; intros b; simpl; [reflexivity|].
  rewrite IH. f_equal. unfold visit, try_orientation.
  rewrite <- !surjective_pairing, H. reflexivity.
Qed.

(** X17.  In exact arithmetic neither the totals nor the orientation the
    search returns depend on the order of the rows of the frame. *)
Theorem search_independent_of_row_order (v v' : list SunVector)
    (efficiency : R) (Hperm : Permutation v v') :
  (forall ew ns,
      total_energy (calculate_energy v efficiency ew ns)
      = total_energy (calculate_energy v' efficiency ew ns))
  /\ find_best_fixed_position v efficiency
     = find_best_fixed_position v' efficiency.
Proof.
  split; [intros; now apply total_energy_permutation|].
  assert (Ht : forall o, orientation_total v efficiency o
                         = orientation_total v' efficiency o)
    by (intros o; now apply total_energy_permutation).
  assert (Hc : coarse_search v efficiency = coarse_search v' efficiency).
  { unfold coarse_search. rewrite !grid_search_row_major.
    now apply grid_search_ext. }
  unfold find_best_fixed_position, search_state. cbv zeta.
  rewrite !grid_search_row_major, Hc.
  now rewrite (grid_search_ext v v' efficiency _ _ Ht).
Qed.

Lemma search_independent_of_row_order_witness :
  Permutation [sun_vector sample_overhead; sun_vector sample_east]
              [sun_vector sample_east; sun_vector sample_overhead]
  /\ find_best_fixed_position
       [sun_vector sample_overhead; sun_vector sample_east] (1 / 5)
     = find_best_fixed_position
         [sun_vector sample_east; sun_vector sample_overhead] (1 / 5).
Proof.
  assert (H : Permutation [sun_vector sample_overhead; sun_vector sample_east]
                          [sun_vector sample_east; sun_vector sample_overhead])
    by apply perm_swap.
  split; [exact H|].
  exact (proj2 (search_independent_of_row_order _ _ (1 / 5) H)).
Defined.

(** ** From the samples to the tracking total *)




(** ** When the handler reaches the export *)

Lemma truthy_true (s : string) : truthy s = true <-> s <> ""%string.
Proof.
  unfold truthy. destruct (String.eqb_spec s ""); simpl; split; intros;
    try discriminate; try contradiction; auto.
Qed.

Lemma read_location_and_export_fields (B : Builtins) (f : Form) (year : Z)
    (eff : R) (cew cns : option R) (call : ExportCall) :
  read_location_and_export B f year eff cew cns = Export call ->
  truthy (lat_entry f) = true /\ truthy (lon_entry f) = true
  /\ truthy (tz_combo f) = true.
Proof.
  unfold read_location_and_export. cbv zeta.
  destruct (truthy (py_strip B (name_entry f)));
    cbn [andb negb]; [|discriminate].
  destruct (truthy (lat_entry f)); cbn [andb negb]; [|discriminate].
  destruct (truthy (lon_entry f)); cbn [andb negb]; [|discriminate].
  destruct (truthy (tz_combo f)); cbn [andb negb]; [|discriminate].
  auto.
Qed.

Lemma read_location_and_export_accepts (B : Builtins) (f : Form) (year : Z)
    (eff : R) (cew cns : option R) :
  py_strip B (name_entry f) <> ""%string ->
  lat_entry f <> ""%string -> lon_entry f <> ""%string ->
  tz_combo f <> ""%string ->
  (exists tz, dict_get tz_value_map (tz_combo f) = Some tz) ->
  (exists lat, py_float B (lat_entry f) = Some lat) ->
  (exists lon, py_float B (lon_entry f) = Some lon) ->
  save_path f <> ""%string ->
  exists call, read_location_and_export B f year eff cew cns = Export call.
Proof.
  intros Hn Hlat Hlon Htz [tz Etz] [lat Elat] [lon Elon] Hp.
  apply truthy_true in Hn, Hlat, Hlon, Htz, Hp.
  unfold read_location_and_export. cbv zeta.
  rewrite Hn, Hlat, Hlon, Htz, Etz, Elat, Elon, Hp. cbn [andb negb].
  eexists. reflexivity.
Qed.

(** X19.  The handler reaches the call of [calculate_and_export] exactly
    when the form is acceptable: year and efficiency parse and lie in
    [1950,2100] and (0,100], the custom tilts, when their box is ticked,
    parse and lie in [-90,90], the stripped name and the three other texts of
    the location are not empty, the zone is in the map, latitude and
    longitude parse, and the dialog returned a path.  In every other case it
    ends without the call. *)
Theorem click_exports_iff_form_accepted (B : Builtins) (f : Form) :
  (exists call, on_calculate_click B f = Export call) <-> form_accepted B f.
Proof.
  unfold form_accepted. split.
  - intros [call Hcall]. unfold on_calculate_click in Hcall.
    destruct (py_int B (year_entry f)) as [year|] eqn:Hyear; [|discriminate].
    destruct (py_float B (efficiency_entry f)) as [p|] eqn:Hp; [|discriminate].
    destruct (Rgtb p 0 && Rleb p 100)%bool eqn:Hrange; simpl in Hcall;
      [|discriminate].
    apply andb_prop in Hrange. destruct Hrange as [Hp0 Hp100].
    apply Rgtb_true in Hp0. apply Rleb_true in Hp100.
    destruct ((year <? 1950)%Z || (year >? 2100)%Z)%bool eqn:Hy;
      [discriminate|].
    apply Bool.orb_false_elim in Hy. destruct Hy as [Hy1 Hy2].
    apply Z.ltb_ge in Hy1. rewrite Z.gtb_ltb in Hy2. apply Z.ltb_ge in Hy2.
    assert (Hloc : forall cew cns,
              read_location_and_export B f year (p / 100) cew cns = Export call ->
              py_strip B (name_entry f) <> ""%string
              /\ lat_entry f <> ""%string /\ lon_entry f <> ""%string
              /\ tz_combo f <> ""%string
              /\ (exists tz, dict_get tz_value_map (tz_combo f) = Some tz)
              /\ (exists lat, py_float B (lat_entry f) = Some lat)
              /\ (exists lon, py_float B (lon_entry f) = Some lon)
              /\ save_path f <> ""%string).
    { intros cew cns H.
      destruct (read_location_and_export_fields _ _ _ _ _ _ _ H)
        as [Tlat [Tlon Ttz]].
      apply read_location_and_export_call in H.
      destruct H as [_ [_ [_ [_ [_ [Tpath [Ename [Tname [Elat [Elon Etz]]]]]]]]]].
      rewrite Ename in Tname.
      apply truthy_true in Tlat, Tlon, Ttz, Tpath, Tname.
      repeat split; try assumption; eexists; eassumption. }
    split; [exists year; split; [reflexivity | lia]|].
    split; [exists p; split; [reflexivity | lra]|].
    destruct (custom_position_var f).
    + destruct (read_custom_tilts B f) as [[ew ns]|] eqn:Htilts; [|discriminate].
      apply read_custom_tilts_valid in Htilts.
      destruct Htilts as [Eew [Ens [Vew Vns]]].
      split; [intros _; exists ew, ns; auto|].
      exact (Hloc _ _ Hcall).
    + split; [intros H; discriminate H|]. exact (Hloc _ _ Hcall).
  - intros [[year [Hyear Hy]] [[p [Hp Hrange]] [Hcustom Hloc]]].
    unfold on_calculate_click. rewrite Hyear, Hp.
    assert (H1 : Rgtb p 0 = true) by (apply Rgtb_true; lra).
    assert (H2 : Rleb p 100 = true) by (apply Rleb_true; lra).
    rewrite H1, H2. cbn [andb negb].
    assert (Hy1 : (year <? 1950)%Z = false) by (apply Z.ltb_ge; lia).
    assert (Hy2 : (year >? 2100)%Z = false)
      by (rewrite Z.gtb_ltb; apply Z.ltb_ge; lia).
    rewrite Hy1, Hy2. cbn [orb].
    destruct Hloc as [Hn [Hlat [Hlon [Htz [Etz [Elat [Elon Hpath]]]]]]].
    destruct (custom_position_var f).
    + destruct (Hcustom eq_refl) as [ew [ns [Eew [Ens [Vew Vns]]]]].
      unfold valid_tilt in Vew, Vns.
      unfold read_custom_tilts. rewrite Eew, Ens.
      assert (T1 : Rleb (-90) ew = true) by (apply Rleb_true; lra).
      assert (T2 : Rleb ew 90 = true) by (apply Rleb_true; lra).
      assert (T3 : Rleb (-90) ns = true) by (apply Rleb_true; lra).
      assert (T4 : Rleb ns 90 = true) by (apply Rleb_true; lra).
      rewrite T1, T2, T3, T4. cbn [andb negb].
      now apply read_location_and_export_accepts.
    + now apply read_location_and_export_accepts.
Qed.

(** ** The sun behind the panel and the sun on its normal *)

Lemma dot3_panel_normal_self (ew ns : R) :
  dot3 (get_panel_normal ew ns) (get_panel_normal ew ns) = 1.
Proof.
  unfold get_panel_normal. cbv zeta. rewrite dot3_Rx, dot3_Ry.
  unfold dot3. ring.
Qed.

(** X20.  With fixed tilts, a frame whose sun vectors all lie in or behind
    the plane of the panel yields energy 0 in every row; and a frame whose
    sun vectors all lie on the normal of the panel yields exactly the frame
    of the tracking mode.  The normal itself is such a vector. *)
Theorem shaded_and_facing_panels (vectors_df : list SunVector)
    (efficiency ew_tilt ns_tilt : R) :
  (Forall (fun v => dot3 (xyz v) (get_panel_normal ew_tilt ns_tilt) <= 0)
          vectors_df ->
   calculate_energy vectors_df efficiency (Some ew_tilt) (Some ns_tilt)
   = map (fun v => mkEnergy (sv_time v) 0) vectors_df)
  /\ (Forall (fun v => 1 <= dot3 (xyz v) (get_panel_normal ew_tilt ns_tilt))
             vectors_df ->
      calculate_energy vectors_df efficiency (Some ew_tilt) (Some ns_tilt)
      = calculate_energy vectors_df efficiency None None)
  /\ (forall v, xyz v = get_panel_normal ew_tilt ns_tilt ->
                dot3 (xyz v) (get_panel_normal ew_tilt ns_tilt) = 1).
Proof.
  split; [|split].
  - intros H. rewrite Forall_forall in H.
    change (integrate vectors_df efficiency (Fixed ew_tilt ns_tilt)
            = map (fun v => mkEnergy (sv_time v) 0) vectors_df).
    rewrite integrate_rows. apply map_ext_in. intros v Hv.
    unfold sample_energy. cbn [incidence_cosine].
    rewrite clip_below by (apply H; assumption). f_equal. ring.
  - intros H. rewrite Forall_forall in H.
    change (integrate vectors_df efficiency (Fixed ew_tilt ns_tilt)
            = integrate vectors_df efficiency Tracking).
    rewrite !integrate_rows. apply map_ext_in. intros v Hv.
    unfold sample_energy. cbn [incidence_cosine].
    rewrite clip_above by (apply H; assumption). reflexivity.
  - intros v ->. apply dot3_panel_normal_self.
Qed.

(** The sun overhead on a flat panel. *)
Lemma shaded_and_facing_panels_witness :
  Forall (fun v => 1 <= dot3 (xyz v) (get_panel_normal 0 0))
         [sun_vector sample_overhead]
  /\ calculate_energy [sun_vector sample_overhead] (1 / 5) (Some 0) (Some 0)
     = calculate_energy [sun_vector sample_overhead] (1 / 5) None None.
Proof.
  assert (H : Forall (fun v => 1 <= dot3 (xyz v) (get_panel_normal 0 0))
                [sun_vector sample_overhead]).
  { constructor; [|constructor].
    rewrite overhead_vector, get_panel_normal_components.
    rewrite radians_0, sin_0, cos_0. unfold xyz, dot3. simpl. lra. }
  split; [exact H|].
  exact (proj1 (proj2 (shaded_and_facing_panels _ (1 / 5) 0 0)) H).
Defined.
